(** * rdkit_intro.ipynb: fingerprints, feature conditioning and the sweep loop

    A shallow embedding of the notebook's own code.  The chemistry toolkit
    (RDKit), the descriptor calculator (mordred), pandas and scikit-learn
    are external: the operations that the notebook calls are fields of the
    interface classes [RDKit], [Mordred], [Pandas] and [MLLibs], and what
    is assumed of them is stated in the classes [RDKitSpec], [MordredSpec],
    [PandasSpec] and [MLLibsTotal], so that every statement says which
    library behaviour it relies on.  Python exceptions are values of [result]; the notebook
    state that the sweep cell reads and writes is the record [World],
    threaded through the monad [M].  An entry of the descriptor table is
    written as the number it is (a rational, nan or an infinity).  The one
    place where the notebook branches on a rounded result, the comparison
    of a column's float64 standard deviation with 0 in cell 21, is an
    operation of the interface [Pandas], given in binary64 arithmetic in
    section 7.  Standardization is stated over the reals, with
    scikit-learn's rule for constant features written out.

    Layout: definitions (sections 1 to 7a), then lemmas and theorems
    (sections 8 to 15). *)

From Stdlib Require Import List ZArith QArith Qabs Reals Qreals Lia Lra Ascii String.
From Stdlib Require Lqa PrimFloat Uint63.
From stdpp Require Import base gmap strings list sorting.

Open Scope string_scope.
Open Scope list_scope.

(* ================================================================== *)
(** * 1. Python results and exceptions *)
(* ================================================================== *)

(** The exceptions that the modelled calls can raise. *)
Inductive exn : Type :=
  | ArgumentError   (* Boost.Python: argument types did not match C++ signature *)
  | ValueError
  | TypeError
  | OtherError (name : string).   (* any other exception class *)

(** Outcome of a Python call: a value or a raised exception. *)
Inductive result (A : Type) : Type :=
  | Ok (a : A)
  | Raise (e : exn).
Arguments Ok {A} a.
Arguments Raise {A} e.

Definition result_bind {A B} (r : result A) (k : A -> result B) : result B :=
  match r with
  | Ok a => k a
  | Raise e => Raise e
  end.

Declare Scope result_scope.
Delimit Scope result_scope with result.
Notation "'do' x <- c ; k" := (result_bind c (fun x => k))
  (at level 10, x name, c at level 100, k at level 200) : result_scope.

(** A list comprehension [[f(x) for x in xs]]: elements are computed from
    left to right and the first exception aborts the comprehension. *)
Fixpoint comprehension {A B} (f : A -> result B) (xs : list A) : result (list B) :=
  match xs with
  | [] => Ok []
  | x :: xs' =>
      (do y <- f x;
       do ys <- comprehension f xs';
       Ok (y :: ys))%result
  end.

(* ================================================================== *)
(** * 2. Fingerprints (cells 55 to 58) *)
(* ================================================================== *)

(** RDKit's [ExplicitBitVect]: the sequence of its bits. *)
Definition ExplicitBitVect := list bool.
Definition GetNumBits (bv : ExplicitBitVect) : nat := length bv.

(** A one-dimensional numpy array of dtype bool. *)
Definition ndarray := list bool.

(** [np.zeros((n,), dtype=bool)] *)
Definition np_zeros (n : nat) : ndarray := replicate n false.

(** [PyArray_Resize]: the array is truncated or padded with zeros. *)
Definition PyArray_Resize (arr : ndarray) (n : nat) : ndarray :=
  take n arr ++ replicate (n - length arr) false.

(** [DataStructs.ConvertToNumpyArray(bv, destArray)] mutates [destArray]:
    it resizes it to the number of bits of [bv] and then stores bit [i] at
    index [i] for every [i].  The embedding returns the array's new
    contents; the copy is written position by position. *)
Definition ConvertToNumpyArray (bv : ExplicitBitVect) (destArray : ndarray) : ndarray :=
  zip_with (fun _ bit => bit) (PyArray_Resize destArray (GetNumBits bv)) bv.

(** The same copy as the index loop [for i in range(n): dest[i] = bv[i]]. *)
Definition ConvertToNumpyArray_loop (bv : ExplicitBitVect) (destArray : ndarray) : ndarray :=
  foldl (fun dest i => <[i := bv !!! i]> dest)
        (PyArray_Resize destArray (GetNumBits bv))
        (seq 0 (GetNumBits bv)).

(** The parameters of [rdFingerprintGenerator.GetMorganGenerator] that
    matter here.  Its Python signature starts
    [GetMorganGenerator(radius=3, countSimulation=False, includeChirality=False,
    useBondTypes=True, onlyNonzeroInvariants=False, includeRingMembership=True,
    countBounds=None, fpSize=2048, ...)]. *)
Record MorganGenerator : Type := {
  gen_radius : nat;
  gen_countSimulation : bool;
  gen_fpSize : nat
}.

(** The external chemistry toolkit.  [MolFromSmiles] returns [None] (and
    raises nothing) for a string it cannot parse. *)
Class RDKit : Type := {
  Mol : Type;
  MolFromSmiles : string -> option Mol;
  (** [AllChem.GetMorganFingerprintAsBitVect(mol, radius, nBits)] *)
  GetMorganFingerprintAsBitVect : Mol -> nat -> nat -> ExplicitBitVect;
  (** [mfpgen.GetFingerprint(mol)] *)
  GetFingerprint : MorganGenerator -> Mol -> ExplicitBitVect
}.

(** The toolkit's contract on sizes: a fingerprint has as many bits as the
    [nBits] (respectively [fpSize]) it was asked for. *)
Class RDKitSpec (rd : RDKit) : Prop := {
  GetMorganFingerprintAsBitVect_numbits :
    forall mol radius nBits,
      GetNumBits (GetMorganFingerprintAsBitVect mol radius nBits) = nBits;
  GetFingerprint_numbits :
    forall gen mol, GetNumBits (GetFingerprint gen mol) = gen_fpSize gen
}.

(** A Python value passed where the binding expects an [ROMol]: [None]
    matches no C++ signature and the call raises [ArgumentError]. *)
Definition as_ROMol {rd : RDKit} (molecule : option Mol) : result Mol :=
  match molecule with
  | Some mol => Ok mol
  | None => Raise ArgumentError
  end.

(** Positional call [GetMorganGenerator(a0, a1)]: the first argument binds
    [radius], the second binds [countSimulation] (an int is accepted for a
    bool parameter, by truth value); [fpSize] keeps its default 2048. *)
Definition GetMorganGenerator_positional2 (a0 a1 : nat) : MorganGenerator :=
  {| gen_radius := a0;
     gen_countSimulation := negb (a1 =? 0)%nat;
     gen_fpSize := 2048 |}.

(** The largest value of a C++ [unsigned int]. *)
Definition UINT_MAX : Z := 4294967295.

(** A Python int passed where the binding expects an [unsigned int]: a
    value above [UINT_MAX] raises [OverflowError].  (So does a negative
    one; the lengths here are natural numbers.) *)
Definition as_unsigned_int (n : nat) : result nat :=
  if (Z.of_nat n <=? UINT_MAX)%Z then Ok n else Raise (OtherError "OverflowError").

(** [AllChem.GetMorganFingerprintAsBitVect(mol, radius, nBits)] as Python
    calls it.  The binding first matches the arguments against the C++
    signature, and [None] in the place of the molecule matches none; then
    it converts [nBits]; and the toolkit refuses to build a fingerprint of
    no bits with [ValueError].  The class method [GetMorganFingerprintAsBitVect]
    is the C++ function behind these checks. *)
Definition AllChem_GetMorganFingerprintAsBitVect {rd : RDKit}
    (molecule : option Mol) (radius nBits : nat) : result ExplicitBitVect :=
  (do mol <- as_ROMol molecule;
   do nBits <- as_unsigned_int nBits;
   if (nBits =? 0)%nat then Raise ValueError
   else Ok (GetMorganFingerprintAsBitVect mol radius nBits))%result.

(** Cell 55: the generator interface.  The requested length lands in the
    position of [countSimulation], where any int is accepted. *)
Definition compute_morgan_fingerprints_newvers {rd : RDKit}
    (smiles : string) (fingerprint_length fingerprint_radius : nat) : result ndarray :=
  let mfpgen := GetMorganGenerator_positional2 fingerprint_radius fingerprint_length in
  let molecule := MolFromSmiles smiles in
  (do mol <- as_ROMol molecule;
   let fingerprint := GetFingerprint mfpgen mol in
   let arr := np_zeros 1 in
   Ok (ConvertToNumpyArray fingerprint arr))%result.

(** Cell 56: the old interface.  The requested length is a Python int
    that is passed as [nBits], where it is checked as above.  In both
    functions the radius is handed to the toolkit as it is (the notebook's
    radii are the literals 2 and 4): what the binding does with a radius
    that does not fit its C++ parameter is not modelled, and the
    properties of [compute_morgan_fingerprints] in section 12 are stated
    for radii of at most 2^31 - 1. *)
Definition compute_morgan_fingerprints {rd : RDKit}
    (smiles : string) (fingerprint_length fingerprint_radius : nat) : result ndarray :=
  let molecule := MolFromSmiles smiles in
  (do fingerprint <-
     AllChem_GetMorganFingerprintAsBitVect molecule fingerprint_radius fingerprint_length;
   let arr := np_zeros 1 in
   Ok (ConvertToNumpyArray fingerprint arr))%result.

(** [np.vstack(tup)]: needs at least one array, and rows of equal length. *)
Definition np_vstack (tup : list ndarray) : result (list ndarray) :=
  match tup with
  | [] => Raise ValueError
  | a :: rest =>
      if forallb (fun b => (length b =? length a)%nat) rest
      then Ok tup
      else Raise ValueError
  end.

Module MorganFingerprintTransformer.
(** The two attributes set by [__init__]. *)
Record t : Type := { length : nat; radius : nat }.

(** [__init__(self, length=256, radius=4)] *)
Definition init (length radius : nat) : t :=
  {| length := length; radius := radius |}.
Definition default : t := init 256 4.

(** [fit] returns [self] unchanged. *)
Definition fit {X Y : Type} (self : t) (_ : X) (_ : Y) : t := self.

Definition transform {rd : RDKit} (self : t) (X : list string)
  : result (list ndarray) :=
  (do fing <- comprehension
                (fun m => compute_morgan_fingerprints m (length self) (radius self)) X;
   np_vstack fing)%result.
End MorganFingerprintTransformer.

(* ================================================================== *)
(** * 3. The experiment sweep (cells 59, 65 and 66) *)
(* ================================================================== *)

(** The rows of the data table that the sweep reads: the columns
    [smiles_0] and [bandgap]. *)
Record Row (float : Type) : Type := { smiles_0 : string; bandgap : float }.
Arguments smiles_0 {float} _.
Arguments bandgap {float} _.

Definition DataFrame (float : Type) : Type := list (Row float).

(** [df['smiles_0']] and [df['bandgap']] *)
Definition col_smiles_0 {float} (df : DataFrame float) : list string := map smiles_0 df.
Definition col_bandgap {float} (df : DataFrame float) : list float := map bandgap df.

(** The pandas and scikit-learn operations used by the sweep.  A call
    returns its value or raises; [DataFrame_sample] also advances the
    global random state it draws from. *)
Class MLLibs : Type := {
  float : Type;
  (** a [KNeighborsRegressor] with its parameters and fitted data *)
  KNeighborsRegressor : Type;
  knn_fit : KNeighborsRegressor -> list ndarray -> list float -> result KNeighborsRegressor;
  knn_predict : KNeighborsRegressor -> list ndarray -> result (list float);
  (** [r2_score(y_true, y_pred)], [mean_absolute_error(y_true, y_pred)] *)
  r2_score : list float -> list float -> result float;
  mean_absolute_error : list float -> list float -> result float;
  RandomState : Type;
  (** [df.sample(n)] *)
  DataFrame_sample :
    RandomState -> DataFrame float -> nat -> result (DataFrame float) * RandomState
}.

(** [Pipeline([('fingerprint', MorganFingerprintTransformer()), ('knn', ...)])] *)
Record Pipeline {ml : MLLibs} : Type := {
  fingerprint : MorganFingerprintTransformer.t;
  knn : KNeighborsRegressor
}.

(** [model.set_params(fingerprint__length=l)] *)
Definition Pipeline_set_params_fingerprint__length {ml : MLLibs}
    (model : Pipeline) (l : nat) : Pipeline :=
  {| fingerprint :=
       {| MorganFingerprintTransformer.length := l;
          MorganFingerprintTransformer.radius :=
            MorganFingerprintTransformer.radius (fingerprint model) |};
     knn := knn model |}.

(** [Pipeline.fit(X, y)]: the transformer's [fit_transform] (that is
    [fit(X, y).transform(X)]), then the final estimator's [fit]. *)
Definition Pipeline_fit {rd : RDKit} {ml : MLLibs}
    (model : Pipeline) (X : list string) (y : list float) : result Pipeline :=
  (do Xt <- MorganFingerprintTransformer.transform
              (MorganFingerprintTransformer.fit (fingerprint model) X y) X;
   do knn' <- knn_fit (knn model) Xt y;
   Ok {| fingerprint := fingerprint model; knn := knn' |})%result.

(** [Pipeline.predict(X)] *)
Definition Pipeline_predict {rd : RDKit} {ml : MLLibs}
    (model : Pipeline) (X : list string) : result (list float) :=
  (do Xt <- MorganFingerprintTransformer.transform (fingerprint model) X;
   knn_predict (knn model) Xt)%result.

(** Values stored in a result record, and the record itself: a Python
    dict with string keys. *)
Inductive value {ml : MLLibs} : Type :=
  | VInt (n : nat)
  | VFloat (x : float).

Abbreviation dict := (gmap string value).

(** The notebook state that the sweep cell reads or writes. *)
Record World {ml : MLLibs} : Type := {
  results : list dict;
  model : Pipeline;
  train_data : DataFrame float;
  test_data : DataFrame float;
  random_state : RandomState
}.

(** State and exceptions: a computation returns a result and the state it
    leaves behind, also when it raises. *)
Definition M {ml : MLLibs} (A : Type) : Type := World -> result A * World.

Definition M_ret {ml : MLLibs} {A} (a : A) : M A := fun w => (Ok a, w).

Definition M_bind {ml : MLLibs} {A B} (c : M A) (k : A -> M B) : M B :=
  fun w =>
    match c w with
    | (Ok a, w') => k a w'
    | (Raise e, w') => (Raise e, w')
    end.

Declare Scope M_scope.
Delimit Scope M_scope with M.
Notation "'do' x <- c ; k" := (M_bind c (fun x => k))
  (at level 10, x name, c at level 100, k at level 200) : M_scope.
Notation "c ;; k" := (M_bind c (fun _ => k))
  (at level 100, k at level 200, right associativity) : M_scope.

(** Reading a notebook variable. *)
Definition M_read {ml : MLLibs} {A} (f : World -> A) : M A := fun w => (Ok (f w), w).

(** A call that does not touch the notebook state. *)
Definition M_call {ml : MLLibs} {A} (r : result A) : M A := fun w => (r, w).

(** [results = []] *)
Definition results_clear {ml : MLLibs} : M unit :=
  fun w =>
    (Ok tt, {| results := []; model := model w; train_data := train_data w;
               test_data := test_data w; random_state := random_state w |}).

(** [results.append(d)] *)
Definition results_append {ml : MLLibs} (d : dict) : M unit :=
  fun w =>
    (Ok tt, {| results := results w ++ [d]; model := model w;
               train_data := train_data w; test_data := test_data w;
               random_state := random_state w |}).

(** [model.set_params(fingerprint__length=l)] on the notebook's [model]. *)
Definition model_set_params {ml : MLLibs} (l : nat) : M unit :=
  fun w =>
    (Ok tt, {| results := results w;
               model := Pipeline_set_params_fingerprint__length (model w) l;
               train_data := train_data w; test_data := test_data w;
               random_state := random_state w |}).

(** [train_data.sample(s)] *)
Definition train_data_sample {ml : MLLibs} (s : nat) : M (DataFrame float) :=
  fun w =>
    let '(r, rs) := DataFrame_sample (random_state w) (train_data w) s in
    (r, {| results := results w; model := model w; train_data := train_data w;
           test_data := test_data w; random_state := rs |}).

(** [model.fit(X, y)]: the fitted pipeline replaces [model]. *)
Definition model_fit {rd : RDKit} {ml : MLLibs} (X : list string) (y : list float) : M unit :=
  fun w =>
    match Pipeline_fit (model w) X y with
    | Ok fitted =>
        (Ok tt, {| results := results w; model := fitted; train_data := train_data w;
                   test_data := test_data w; random_state := random_state w |})
    | Raise e => (Raise e, w)
    end.

(** [model.predict(X)] *)
Definition model_predict {rd : RDKit} {ml : MLLibs} (X : list string) : M (list float) :=
  fun w => (Pipeline_predict (model w) X, w).

(** A [for] loop over a list. *)
Fixpoint for_each {ml : MLLibs} {A} (xs : list A) (body : A -> M unit) : M unit :=
  match xs with
  | [] => M_ret tt
  | x :: xs' => (body x ;; for_each xs' body)%M
  end.

(** The dict literal appended by one iteration; keys are inserted in the
    order in which they are written. *)
Definition result_record {ml : MLLibs} (l s i : nat) (r2 mae : float) : dict :=
  <["mae" := VFloat mae]>
    (<["r2_score" := VFloat r2]>
       (<["iteration" := VInt i]>
          (<["train_size" := VInt s]>
             (<["length" := VInt l]> ∅)))).

(** The body of the innermost loop. *)
Definition iteration {rd : RDKit} {ml : MLLibs} (l s i : nat) : M unit :=
  (do subset <- train_data_sample s;
   model_fit (col_smiles_0 subset) (col_bandgap subset) ;;
   do test_smiles <- M_read (fun w => col_smiles_0 (test_data w));
   do y_pred <- model_predict test_smiles;
   do y_true <- M_read (fun w => col_bandgap (test_data w));
   do r2 <- M_call (r2_score y_true y_pred);
   do y_true' <- M_read (fun w => col_bandgap (test_data w));
   do mae <- M_call (mean_absolute_error y_true' y_pred);
   results_append (result_record l s i r2 mae))%M.

Definition sweep_lengths : list nat := [32; 64; 128].
Definition sweep_train_sizes : list nat := [3; 10; 30; 100; 300; 1000; 3000].
(** [range(16)] *)
Definition sweep_repetitions : list nat := seq 0 16.

(** Cell 66 up to the end of the loops. *)
Definition sweep {rd : RDKit} {ml : MLLibs} : M unit :=
  (results_clear ;;
   for_each sweep_lengths (fun l =>
     model_set_params l ;;
     for_each sweep_train_sizes (fun s =>
       for_each sweep_repetitions (fun i =>
         iteration l s i))))%M.

(** The loop positions in the order in which the nest visits them. *)
Definition sweep_grid : list (nat * nat * nat) :=
  l ← sweep_lengths; s ← sweep_train_sizes; i ← sweep_repetitions; [(l, s, i)].

(* ================================================================== *)
(** * 4. Feature conditioning (cells 15 to 25, and cells 76 to 79) *)
(* ================================================================== *)

(** The column dtypes that occur in the descriptor table. *)
Inductive dtype : Type := int64 | float64 | bool_ | object_.

(** A float64 value: finite (written as the rational it is), nan or an
    infinity. *)
Inductive float_value : Type :=
  | Finite (q : Q)
  | Nan
  | Infinite (negative : bool).

(** One entry of the descriptor table.  [Num] is a finite int64 or float64
    entry, [NaN] and [Inf] are the float64 entries nan and plus or minus
    inf, [PyNone] is Python's [None].  [Obj] is any other entry of an
    object column: a string, or one of the descriptor calculator's
    missing-value and error objects.  It carries what the notebook's two
    conversions make of it: [pd.to_numeric(..., errors='coerce')], which
    reads a numeric string as its number and turns what it cannot read into
    nan, and Python's [float], which may raise. *)
Inductive cell : Type :=
  | Num (q : Q)
  | NaN
  | Inf (negative : bool)
  | Bool (b : bool)
  | PyNone
  | Obj (to_numeric : float_value) (as_float : result float_value).

Definition float_cell (x : float_value) : cell :=
  match x with
  | Finite q => Num q
  | Nan => NaN
  | Infinite negative => Inf negative
  end.

Record Series : Type := { col_name : string; col_dtype : dtype; col_values : list cell }.

(** The descriptor table [desc]: its columns from left to right. *)
Definition Frame : Type := list Series.

Definition columns (desc : Frame) : list string := map col_name desc.

(** Cells 7, 15 and 72: [data['smiles_0'].apply(Chem.MolFromSmiles)]. *)
Definition mol_column {rd : RDKit} (smiles_0 : list string) : list (option Mol) :=
  map MolFromSmiles smiles_0.

(** The descriptor calculator (mordred): [calc.pandas(mols)] computes the
    descriptor table, one row per molecule, or raises. *)
Class Mordred (rd : RDKit) : Type := {
  Calculator_pandas : list (option Mol) -> result Frame
}.

(** The calculator refuses an entry that is not a molecule with
    [TypeError] ("None is not rdkit.Chem.Mol instance"). *)
Class MordredSpec {rd : RDKit} (md : Mordred rd) : Prop := {
  Calculator_pandas_None :
    forall mols, None ∈ mols -> Calculator_pandas mols = Raise TypeError
}.

(** Cells 15 and 18: [data['mol'] = data['smiles_0'].apply(Chem.MolFromSmiles)]
    and [desc = calc.pandas(data['mol'])]. *)
Definition compute_desc {rd : RDKit} {md : Mordred rd} (smiles_0 : list string)
  : result Frame :=
  Calculator_pandas (mol_column smiles_0).

(** The number that a finite numeric entry stands for. *)
Definition cell_number (c : cell) : option Q :=
  match c with
  | Num q => Some q
  | Bool b => Some (if b then 1 else 0)%Q
  | NaN | Inf _ | PyNone | Obj _ _ => None
  end.

Definition Qsum (xs : list Q) : Q := fold_right Qplus 0%Q xs.

Definition Qmean (xs : list Q) : Q := (Qsum xs / inject_Z (Z.of_nat (length xs)))%Q.

(** [isnull()] on one entry: nan and [None] are missing; an infinity is
    not. *)
Definition isnull (c : cell) : bool :=
  match c with
  | NaN | PyNone => true
  | Num _ | Inf _ | Bool _ | Obj _ _ => false
  end.

(** The row [count] of [describe()]: the number of entries of a column
    that are not missing. *)
Definition describe_count (vs : list cell) : nat :=
  length (filter (fun c => Is_true (negb (isnull c))) vs).

(** pandas' float64 statistics, as far as cell 21 reads them.  [describe()]
    computes the sample standard deviation of a column in float64 and its
    value depends on the rounding of every step, so that a constant column
    can have a deviation that is not 0 (0.1, 0.1, 0.1) and a column that is
    not constant can have the deviation 0 (2^53, 2^53 + 1 as int64).  The
    comparison of the computed deviation with 0 is therefore an operation
    of the interface; section 7 gives it in binary64 arithmetic. *)
Class Pandas : Type := {
  (** [stats.loc['std'] == 0] for the entries of one column *)
  Series_std_eq_0 : list cell -> bool
}.

(** The deviation of fewer than two observed values is nan, and nan is not
    equal to 0. *)
Class PandasSpec (pd : Pandas) : Prop := {
  Series_std_eq_0_count :
    forall vs, Series_std_eq_0 vs = true -> 2 <= describe_count vs
}.

Definition std_eq_0 {pd : Pandas} (s : Series) : bool := Series_std_eq_0 (col_values s).

Definition is_int64_or_float64 (d : dtype) : bool :=
  match d with
  | int64 | float64 => true
  | bool_ | object_ => false
  end.

(** [desc.select_dtypes(include=['int64', 'float64'])] *)
Definition select_dtypes_int64_float64 (desc : Frame) : Frame :=
  filter (fun s => Is_true (is_int64_or_float64 (col_dtype s))) desc.

(** [stats = desc[numeric_cols].describe()] followed by
    [stats.columns[stats.loc['std'] == 0]].  [describe] raises on a table
    without columns. *)
Definition zero_std_cols {pd : Pandas} (desc : Frame) : result (list string) :=
  let numeric_cols := select_dtypes_int64_float64 desc in
  match numeric_cols with
  | [] => Raise ValueError
  | _ => Ok (columns (filter (fun s => Is_true (std_eq_0 s)) numeric_cols))
  end.

(** [desc.drop(columns=labels)] *)
Definition drop_columns (labels : list string) (desc : Frame) : Frame :=
  filter (fun s => col_name s ∉ labels) desc.

(** [pd.to_numeric(series, errors='coerce')]: a column of a numeric or
    bool dtype is returned as it is; in an object column a number stays, a
    numeric string is read as its number, and what cannot be read becomes
    nan.  The result is given the dtype float64 here (pandas gives int64
    when every entry is an integer); no later cell reads the dtype. *)
Definition coerce_cell (c : cell) : cell :=
  match c with
  | Num q => Num q
  | NaN => NaN
  | Inf negative => Inf negative
  | Bool b => Num (if b then 1 else 0)%Q
  | PyNone => NaN
  | Obj to_numeric _ => float_cell to_numeric
  end.

Definition to_numeric_coerce (s : Series) : Series :=
  match col_dtype s with
  | object_ =>
      {| col_name := col_name s; col_dtype := float64;
         col_values := map coerce_cell (col_values s) |}
  | _ => s
  end.

(** [desc.isnull().any()] for one column *)
Definition missing_values (s : Series) : bool := existsb isnull (col_values s).

(** [desc.loc[:, ~missing_values]] *)
Definition drop_missing (desc : Frame) : Frame :=
  filter (fun s => Is_true (negb (missing_values s))) desc.

(** Cells 21 to 25 in sequence. *)
Definition condition {pd : Pandas} (desc : Frame) : result Frame :=
  (do zero <- zero_std_cols desc;
   let desc1 := drop_columns zero desc in
   let desc2 := map to_numeric_coerce desc1 in
   Ok (drop_missing desc2))%result.

(** [desc.astype('float')]: every entry is converted with [float]; an
    infinity stays an infinity, and numpy reads [None] as nan. *)
Definition astype_float_cell (c : cell) : result cell :=
  match c with
  | Num q => Ok (Num q)
  | NaN => Ok NaN
  | Inf negative => Ok (Inf negative)
  | Bool b => Ok (Num (if b then 1 else 0)%Q)
  | PyNone => Ok NaN
  | Obj _ (Ok x) => Ok (float_cell x)
  | Obj _ (Raise e) => Raise e
  end.

Definition astype_float (desc : Frame) : result Frame :=
  comprehension
    (fun s =>
       (do vs <- comprehension astype_float_cell (col_values s);
        Ok {| col_name := col_name s; col_dtype := float64; col_values := vs |})%result)
    desc.

(** Cells 15 to 25 in sequence: from the SMILES column to the conditioned
    descriptor table. *)
Definition conditioned_desc {rd : RDKit} {md : Mordred rd} {pd : Pandas}
    (smiles_0 : list string) : result Frame :=
  (do desc <- compute_desc smiles_0;
   condition desc)%result.

(** Cells 76 to 79 of the assignment section: no constant column is
    removed there. *)
Definition condition_assignment (desc : Frame) : result Frame :=
  (do desc1 <- astype_float desc;
   Ok (drop_missing desc1))%result.

(** The entries that a column of a given dtype can hold. *)
Definition cell_has_dtype (d : dtype) (c : cell) : bool :=
  match d, c with
  | int64, Num _ => true
  | float64, Num _ => true
  | float64, NaN => true
  | float64, Inf _ => true
  | bool_, Bool _ => true
  | object_, _ => true
  | _, _ => false
  end.

Definition well_typed (s : Series) : bool :=
  forallb (cell_has_dtype (col_dtype s)) (col_values s).

(** An infinite entry. *)
Definition is_inf (c : cell) : bool :=
  match c with
  | Inf _ => true
  | _ => false
  end.

(** An entry that is a number or an infinity: not missing and not an
    object. *)
Definition is_number_or_inf (c : cell) : bool :=
  match c with
  | Num _ | Inf _ | Bool _ => true
  | NaN | PyNone | Obj _ _ => false
  end.

(** A column of two entries or more that all stand for the same number:
    in exact arithmetic its sample standard deviation is zero. *)
Definition constant_column (s : Series) : Prop :=
  2 <= length (col_values s)
  /\ exists q, Forall (fun c => cell_number c = Some q) (col_values s).

(* ================================================================== *)
(** * 5. Standardization (cells 28, 29, 80 and 84) *)
(* ================================================================== *)

(** [check_array], the validation that the scaler's [fit_transform] starts
    with, on a table of int64, float64 and bool columns (the tables that
    cells 23 and 76 leave).  The scaler validates with
    [force_all_finite='allow-nan']: an infinity raises [ValueError], nan is
    let through. *)
Definition check_array (desc : Frame) : result Frame :=
  if existsb (fun s => existsb is_inf (col_values s)) desc
  then Raise ValueError
  else Ok desc.

(** A table of finite numbers as a real matrix, given by its feature
    columns; [None] if an entry is not a finite number.  The statistics of
    the scaler are stated for such tables. *)
Definition cell_to_R (c : cell) : option R := Q2R <$> cell_number c.

Definition to_matrix (desc : Frame) : option (list (list R)) :=
  mapM (fun s => mapM cell_to_R (col_values s)) desc.

Definition Rsum (xs : list R) : R := fold_right Rplus 0%R xs.

(** [x.mean()] and [x.std()] of numpy, as cell 29 applies them to the
    standardized columns (population statistics, [ddof=0], which are also
    the statistics that the scaler fits). *)
Definition np_mean (xs : list R) : R := (Rsum xs / INR (length xs))%R.

Definition np_var (xs : list R) : R :=
  np_mean (map (fun x => (x - np_mean xs) * (x - np_mean xs))%R xs).

Definition np_std (xs : list R) : R := sqrt (np_var xs).

(** [np.finfo(np.float64).eps] *)
Definition float64_eps : R := (/ 2 ^ 52)%R.

(** scikit-learn's [_is_constant_feature(var, mean, n_samples)]: a feature
    counts as constant when its variance is within the bound on the
    rounding error of its computation,
    [var <= n_samples * eps * var + (n_samples * mean * eps) ** 2]. *)
Definition is_constant_feature (var mean : R) (n_samples : nat) : bool :=
  if Rle_dec var (INR n_samples * float64_eps * var
                  + (INR n_samples * mean * float64_eps) ^ 2)%R
  then true else false.

(** [_handle_zeros_in_scale(scale, constant_mask=constant_mask)]: the scale
    of a feature that is flagged as constant is set to 1, so that the
    feature is centred and not scaled. *)
Definition handle_zeros_in_scale (scale : R) (constant_mask : bool) : R :=
  if constant_mask then 1%R else scale.

Module StandardScaler.
(** The fitted attributes, one entry per feature. *)
Record t : Type := { mean_ : list R; var_ : list R; scale_ : list R }.

Definition fit (X : list (list R)) : t :=
  {| mean_ := map np_mean X;
     var_ := map np_var X;
     scale_ :=
       map (fun x =>
              handle_zeros_in_scale
                (sqrt (np_var x))
                (is_constant_feature (np_var x) (np_mean x) (length x)))
           X |}.

Definition transform_column (x : list R) (mean scale : R) : list R :=
  map (fun v => (v - mean) / scale)%R x.

Definition transform (self : t) (X : list (list R)) : list (list R) :=
  zip_with (fun x ms => transform_column x ms.1 ms.2) X (zip (mean_ self) (scale_ self)).

(** [fit_transform] validates its input first: at least one feature and
    at least one sample. *)
Definition fit_transform (X : list (list R)) : result (list (list R)) :=
  match X with
  | [] => Raise ValueError
  | x :: _ =>
      match x with
      | [] => Raise ValueError
      | _ => Ok (transform (fit X) X)
      end
  end.
End StandardScaler.

(** The standardized form of one column, as [fit] followed by [transform]
    computes it. *)
Definition standardize (x : list R) : list R :=
  StandardScaler.transform_column x (np_mean x)
    (handle_zeros_in_scale
       (sqrt (np_var x))
       (is_constant_feature (np_var x) (np_mean x) (length x))).

(* ================================================================== *)
(** * 6. Specification vocabulary *)
(* ================================================================== *)

(** [appended train test (l, s, i) d]: [d] is a record that a completed
    iteration at loop position [(l, s, i)] appends.  A sample of [s] rows
    was drawn from [train], a pipeline whose fingerprint length is [l] was
    fitted on it, and both scores compare its predictions on [test] with
    the targets of [test]. *)
Definition appended {rd : RDKit} {ml : MLLibs}
    (train test : DataFrame float) (pos : nat * nat * nat) (d : dict) : Prop :=
  let '(l, s, i) := pos in
  exists (rs rs' : RandomState) (subset : DataFrame float)
         (model0 fitted : Pipeline) (y_pred : list float) (r2 mae : float),
    DataFrame_sample rs train s = (Ok subset, rs') /\
    MorganFingerprintTransformer.length (fingerprint model0) = l /\
    Pipeline_fit model0 (col_smiles_0 subset) (col_bandgap subset) = Ok fitted /\
    Pipeline_predict fitted (col_smiles_0 test) = Ok y_pred /\
    r2_score (col_bandgap test) y_pred = Ok r2 /\
    mean_absolute_error (col_bandgap test) y_pred = Ok mae /\
    d = result_record l s i r2 mae.

(** [covers Pre Post c ps]: started in a state satisfying [Pre], the
    computation [c] walks the loop positions [ps] in order.  It leaves both
    data partitions alone and only appends to [results]: one record for
    each of the first [k] positions.  Either it returns, then [k] is all of
    [ps] and [Post] holds; or it raises [e], then position [k] is the
    iteration that raised [e], entered in a state [w_k] that held the [k]
    records, and nothing ran after it. *)
Definition covers {rd : RDKit} {ml : MLLibs}
    (Pre Post : World -> Prop) (c : M unit) (ps : list (nat * nat * nat)) : Prop :=
  forall w, Pre w ->
    exists (k : nat) (new : list dict),
      results (c w).2 = results w ++ new /\
      train_data (c w).2 = train_data w /\
      test_data (c w).2 = test_data w /\
      Forall2 (appended (train_data w) (test_data w)) (take k ps) new /\
      match (c w).1 with
      | Ok _ => k = length ps /\ Post (c w).2
      | Raise e =>
          exists l s i w_k,
            ps !! k = Some (l, s, i) /\
            results w_k = results w ++ new /\
            iteration l s i w_k = (Raise e, (c w).2)
      end.

(** The passes of the loop nest in the order in which they run: for each
    length the call of [set_params], then the 7 * 16 iterations. *)
Definition sweep_steps {rd : RDKit} {ml : MLLibs} : list (M unit) :=
  l ← sweep_lengths;
  model_set_params l :: (s ← sweep_train_sizes; i ← sweep_repetitions; [iteration l s i]).

(** Running a list of passes one after the other. *)
Definition run_steps {ml : MLLibs} (steps : list (M unit)) : M unit :=
  for_each steps (fun c => c).

(** The fingerprint length currently set on the notebook's [model]. *)
Definition model_length {ml : MLLibs} (w : World) : nat :=
  MorganFingerprintTransformer.length (fingerprint (model w)).

(** An integer field of a record. *)
Definition int_field {ml : MLLibs} (d : dict) (key : string) : option nat :=
  match d !! key with
  | Some (VInt n) => Some n
  | _ => None
  end.

Fixpoint index_of (x : nat) (xs : list nat) : option nat :=
  match xs with
  | [] => None
  | y :: ys => if (x =? y)%nat then Some 0 else S <$> index_of x ys
  end.

(** The loop position of the values [(l, s, i)]: the index of [l] among
    the lengths, the index of [s] among the training-set sizes, and the
    repetition index. *)
Definition grid_position (pos : nat * nat * nat) : option (nat * nat * nat) :=
  let '(l, s, i) := pos in
  a ← index_of l sweep_lengths;
  b ← index_of s sweep_train_sizes;
  Some (a, b, i).

(** The loop position that a record was appended at, read off its fields. *)
Definition loop_position {ml : MLLibs} (d : dict) : option (nat * nat * nat) :=
  l ← int_field d "length";
  s ← int_field d "train_size";
  i ← int_field d "iteration";
  grid_position (l, s, i).

(** Lexicographic order on (length index, size index, repetition index). *)
Definition lex_lt (p q : nat * nat * nat) : Prop :=
  p.1.1 < q.1.1
  \/ (p.1.1 = q.1.1 /\ (p.1.2 < q.1.2 \/ (p.1.2 = q.1.2 /\ p.2 < q.2))).

Definition lex_ltb (p q : nat * nat * nat) : bool :=
  (p.1.1 <? q.1.1)%nat
  || ((p.1.1 =? q.1.1)%nat
      && ((p.1.2 <? q.1.2)%nat || ((p.1.2 =? q.1.2)%nat && (p.2 <? q.2)%nat))).

Fixpoint increasingb (ps : list (nat * nat * nat)) : bool :=
  match ps with
  | [] => true
  | p :: rest =>
      match rest with
      | [] => true
      | q :: _ => lex_ltb p q && increasingb rest
      end
  end.

(** The five keys of a result record. *)
Definition result_keys : gset string :=
  {[ "length"; "train_size"; "iteration"; "r2_score"; "mae" ]}.

Definition in_sweep_ranges (pos : nat * nat * nat) : bool :=
  let '(l, s, i) := pos in
  bool_decide (l ∈ sweep_lengths) && bool_decide (s ∈ sweep_train_sizes) && (i <? 16)%nat.

(** Libraries that do not raise on well-formed input: a sample of at most
    as many rows as the table has is drawn from its rows; a regressor fitted
    on two rows or more predicts one value per query row; the scores are
    defined for non-empty lists of equal length. *)
Class MLLibsTotal (ml : MLLibs) : Prop := {
  DataFrame_sample_ok :
    forall rs (df : DataFrame float) n,
      n <= length df ->
      exists subset rs',
        DataFrame_sample rs df n = (Ok subset, rs')
        /\ length subset = n
        /\ subset ⊆ df;
  knn_fit_ok :
    forall k (X : list ndarray) (y : list float),
      length X = length y -> 2 <= length X ->
      exists k',
        knn_fit k X y = Ok k'
        /\ forall Xt, exists ys, knn_predict k' Xt = Ok ys /\ length ys = length Xt;
  r2_score_ok :
    forall y_true y_pred : list float,
      length y_true = length y_pred -> y_true <> [] ->
      exists v, r2_score y_true y_pred = Ok v;
  mean_absolute_error_ok :
    forall y_true y_pred : list float,
      length y_true = length y_pred -> y_true <> [] ->
      exists v, mean_absolute_error y_true y_pred = Ok v
}.

Definition parses {rd : RDKit} (smiles : string) : Prop := is_Some (MolFromSmiles smiles).

(** The fingerprint lengths that the old interface accepts: at least one
    bit, and within the range of an [unsigned int]. *)
Definition valid_length (l : nat) : Prop := 0 < l /\ (Z.of_nat l <= UINT_MAX)%Z.

(** The largest value of a C++ [int]. *)
Definition INT_MAX : Z := 2147483647.

(** A radius that the binding converts whatever the signedness of the
    parameter: at most [INT_MAX]. *)
Definition valid_radius (r : nat) : Prop := (Z.of_nat r <= INT_MAX)%Z.

(** Tables on which the sweep can run: every SMILES string parses, the
    test partition is not empty, and the training partition has rows
    enough for the largest sample. *)
Definition sweep_ready {rd : RDKit} {ml : MLLibs} (train test : DataFrame float) : Prop :=
  Forall parses (col_smiles_0 train)
  /\ Forall parses (col_smiles_0 test)
  /\ test <> []
  /\ 3000 <= length train.

(* ================================================================== *)
(** * 7. A small instance of the library interfaces *)
(* ================================================================== *)

(** The definitions above are evaluated on concrete inputs with the
    following stand-ins for the libraries: a parser that accepts the
    non-empty strings over a few atom and bond characters, a fingerprint
    that hashes the string length, and a nearest-neighbour regressor that
    stores its training set. *)

Definition demo_smiles_char (a : ascii) : bool :=
  existsb (fun b => Ascii.eqb a b)
          (list_ascii_of_string "CNOcno=#()123456789").

Definition demo_parse (s : string) : option string :=
  match list_ascii_of_string s with
  | [] => None
  | cs => if forallb demo_smiles_char cs then Some s else None
  end.

Fixpoint demo_pattern (phase size : nat) : ExplicitBitVect :=
  match size with
  | 0 => []
  | S size' =>
      (phase =? 0)%nat :: demo_pattern (match phase with 0 => 2 | S p => p end) size'
  end.

Definition demo_bits (mol : string) (radius size : nat) : ExplicitBitVect :=
  demo_pattern ((String.length mol + radius) mod 3) size.

Definition demo_rdkit : RDKit :=
  {| Mol := string;
     MolFromSmiles := demo_parse;
     GetMorganFingerprintAsBitVect := fun mol radius nBits => demo_bits mol radius nBits;
     GetFingerprint := fun gen mol => demo_bits mol (gen_radius gen) (gen_fpSize gen) |}.

Definition Qabs_diff (a b : Q) : Q := Qabs (a - b).

Definition demo_mae (y_true y_pred : list Q) : result Q :=
  if (length y_true =? length y_pred)%nat
  then match y_true with
       | [] => Raise ValueError
       | _ => Ok (Qred (Qmean (zip_with Qabs_diff y_true y_pred)))
       end
  else Raise ValueError.

Definition demo_r2 (y_true y_pred : list Q) : result Q :=
  if (length y_true =? length y_pred)%nat
  then match y_true with
       | [] => Raise ValueError
       | _ =>
           let m := Qmean y_true in
           let ss_res := Qsum (zip_with (fun a b => (a - b) * (a - b))%Q y_true y_pred) in
           let ss_tot := Qsum (map (fun a => (a - m) * (a - m))%Q y_true) in
           Ok (Qred (1 - ss_res / ss_tot))
       end
  else Raise ValueError.

(** Two neighbours are asked for, so a fit needs two rows at least; the
    prediction averages the targets of the first two stored rows. *)
Definition demo_knn_fit (_ : list (ndarray * Q)) (X : list ndarray) (y : list Q)
  : result (list (ndarray * Q)) :=
  if (length X =? length y)%nat && (2 <=? length X)%nat
  then Ok (zip X y)
  else Raise ValueError.

Definition demo_knn_predict (fitted : list (ndarray * Q)) (X : list ndarray)
  : result (list Q) :=
  match fitted with
  | (_, a) :: (_, b) :: _ => Ok (map (fun _ => Qred ((a + b) / 2)) X)
  | _ => Raise ValueError
  end.

(** Sampling without replacement: the first [n] rows of the table rotated
    by the state; asking for more rows than there are raises. *)
Definition demo_sample (rs : nat) (df : DataFrame Q) (n : nat)
  : result (DataFrame Q) * nat :=
  if (n <=? length df)%nat
  then (Ok (take n (rotate rs df)), S rs)
  else (Raise ValueError, rs).

Definition demo_ml : MLLibs :=
  {| float := Q;
     KNeighborsRegressor := list (ndarray * Q);
     knn_fit := demo_knn_fit;
     knn_predict := demo_knn_predict;
     r2_score := demo_r2;
     mean_absolute_error := demo_mae;
     RandomState := nat;
     DataFrame_sample := demo_sample |}.

Definition demo_row (i : nat) : Row Q :=
  {| smiles_0 := match i mod 3 with 0 => "C" | 1 => "CCC" | _ => "C=O" end;
     bandgap := inject_Z (Z.of_nat (i mod 7)) |}.

Definition demo_table (n : nat) : DataFrame Q := map demo_row (seq 0 n).

Definition demo_world (n_train n_test : nat) : @World demo_ml :=
  {| results := [];
     model := {| fingerprint := MorganFingerprintTransformer.default;
                 knn := ([] : @KNeighborsRegressor demo_ml) |};
     train_data := demo_table n_train;
     test_data := demo_table n_test;
     random_state := 0 |}.

(** A training table whose last row holds a string that does not parse. *)
Definition demo_world_unparsable : @World demo_ml :=
  {| results := [];
     model := {| fingerprint := MorganFingerprintTransformer.default;
                 knn := ([] : @KNeighborsRegressor demo_ml) |};
     train_data := demo_table 3 ++ [ {| smiles_0 := "C?"; bandgap := 0%Q |} ];
     test_data := demo_table 2;
     random_state := 0 |}.

Definition demo_sweep_world : @World demo_ml := demo_world 3000 2.

(** ** Binary64 arithmetic for the deviation of cell 21 *)

Module Float64.
(** An integer below 2^63 in magnitude, rounded to the nearest binary64
    value (an int64 column is converted to float64 before its statistics
    are taken). *)
Definition of_Z (z : Z) : PrimFloat.float :=
  match z with
  | Z0 => PrimFloat.zero
  | Zpos _ => PrimFloat.of_uint63 (Uint63.of_Z z)
  | Zneg n => PrimFloat.opp (PrimFloat.of_uint63 (Uint63.of_Z (Zpos n)))
  end.

(** The binary64 value of an entry written [num / den]: one correctly
    rounded division when numerator and denominator are below 2^53, as
    Python reads the decimal literal 0.1. *)
Definition of_Q (q : Q) : PrimFloat.float :=
  PrimFloat.div (of_Z (Qnum q)) (of_Z (Zpos (Qden q))).

Definition of_cell (c : cell) : option PrimFloat.float :=
  match c with
  | Num q => Some (of_Q q)
  | Inf negative =>
      Some (if negative then PrimFloat.neg_infinity else PrimFloat.infinity)
  | Bool b => Some (if b then PrimFloat.one else PrimFloat.zero)
  | NaN | PyNone | Obj _ _ => None
  end.

(** A sum taken from left to right, which is the order of numpy for fewer
    than eight entries. *)
Definition sum (xs : list PrimFloat.float) : PrimFloat.float :=
  fold_left PrimFloat.add xs PrimFloat.zero.

(** pandas' [nanstd] with [ddof=1]: missing entries are skipped; fewer
    than two observed values give nan; otherwise the mean is taken first
    and then the sum of the squared differences from it. *)
Definition std (vs : list cell) : PrimFloat.float :=
  let values := omap of_cell vs in
  let count := length values in
  if (count <=? 1)%nat then PrimFloat.nan
  else
    let avg := PrimFloat.div (sum values) (of_Z (Z.of_nat count)) in
    let sqr :=
      map (fun x => PrimFloat.mul (PrimFloat.sub avg x) (PrimFloat.sub avg x)) values in
    PrimFloat.sqrt (PrimFloat.div (sum sqr) (of_Z (Z.of_nat (count - 1)))).
End Float64.

(** The deviation of the column 0.1, 0.1, 0.1 in binary64,
    1.6996749443881478e-17, written exactly. *)
Module Float64Values.
Import PrimFloat.
Definition std_of_tenths : PrimFloat.float := 0x1.3988e1409212ep-56%float.
End Float64Values.

(** [std == 0] in binary64; nan compares unequal to 0. *)
Definition float64_pandas : Pandas :=
  {| Series_std_eq_0 := fun vs => PrimFloat.eqb (Float64.std vs) PrimFloat.zero |}.

(** A descriptor calculator with one descriptor, the length of the
    string; it refuses a null molecule. *)
Definition demo_calc_pandas (mols : list (option string)) : result Frame :=
  if forallb (fun m : option string => bool_decide (is_Some m)) mols
  then Ok [ {| col_name := "nChar"; col_dtype := int64;
               col_values :=
                 omap (fun m : option string =>
                         (fun mol => Num (inject_Z (Z.of_nat (String.length mol)))) <$> m)
                      mols |} ]
  else Raise TypeError.

Definition demo_mordred : Mordred demo_rdkit :=
  {| Calculator_pandas :=
       (demo_calc_pandas : list (option (@Mol demo_rdkit)) -> result Frame) |}.

(** A descriptor table with a varying column, a constant float column, a
    column with a missing value, a constant bool column and an object
    column that holds an error object. *)
Definition demo_col_a : Series :=
  {| col_name := "a"; col_dtype := float64; col_values := [Num 1; Num 2; Num 4] |}.
Definition demo_col_c : Series :=
  {| col_name := "c"; col_dtype := float64; col_values := [Num 5; Num 5; Num 5] |}.
Definition demo_col_m : Series :=
  {| col_name := "m"; col_dtype := float64; col_values := [Num 1; NaN; Num 3] |}.
Definition demo_col_b : Series :=
  {| col_name := "b"; col_dtype := bool_; col_values := [Bool true; Bool true; Bool true] |}.
Definition demo_col_e : Series :=
  {| col_name := "e"; col_dtype := object_;
     col_values := [Num 1; Obj Nan (Raise TypeError); Num 3] |}.

Definition demo_desc : Frame :=
  [demo_col_a; demo_col_c; demo_col_m; demo_col_b; demo_col_e].

(** A table for the assignment section: one varying and one constant
    column. *)
Definition demo_desc_assignment : Frame := [demo_col_a; demo_col_c].

(** The same two columns as a real matrix. *)
Definition demo_matrix : list (list R) := [[1; 2; 4]; [5; 5; 5]]%R.

(** Columns on which rounding decides: the constant float64 column 0.1,
    0.1, 0.1, whose binary64 deviation is not 0, and the int64 column
    2^53, 2^53 + 1, which is not constant and whose binary64 deviation is
    0. *)
Definition demo_col_t : Series :=
  {| col_name := "t"; col_dtype := float64;
     col_values := [Num (1 # 10); Num (1 # 10); Num (1 # 10)] |}.
Definition demo_col_p : Series :=
  {| col_name := "p"; col_dtype := int64;
     col_values := [Num 9007199254740992; Num 9007199254740993] |}.

Definition demo_desc_rounding : Frame := [demo_col_t; demo_col_p].

(** A float64 column with an infinite entry, and an object column of
    numbers and numeric strings. *)
Definition demo_col_i : Series :=
  {| col_name := "i"; col_dtype := float64; col_values := [Num 1; Inf false; Num 3] |}.
Definition demo_col_s : Series :=
  {| col_name := "s"; col_dtype := object_;
     col_values := [Obj (Finite 1) (Ok (Finite 1)); Num 2;
                    Obj (Finite 4) (Ok (Finite 4))] |}.

Definition demo_desc_inf : Frame := [demo_col_a; demo_col_i; demo_col_s].

(** A column that is not constant and that scikit-learn treats as
    constant: 1e8, 1e8 + 1e-7, 1e8. *)
Definition demo_near_constant : list R :=
  [100000000; 100000000 + / 10000000; 100000000]%R.

(** Three training rows and a chosen random state. *)
Definition demo_world_seeded (rs : nat) : @World demo_ml :=
  {| results := [];
     model := {| fingerprint := MorganFingerprintTransformer.default;
                 knn := ([] : @KNeighborsRegressor demo_ml) |};
     train_data := demo_table 3;
     test_data := demo_table 2;
     random_state := rs |}.

(* ================================================================== *)
(** * 7a. Further cells: the report of cell 21 and the groups of cell 67 *)
(* ================================================================== *)

(** [len(zero_std_cols) / len(desc.columns) * 100], the percentage that
    cell 21 prints. *)
Definition percent_constant (zero : list string) (desc : Frame) : result Q :=
  match columns desc with
  | [] => Raise (OtherError "ZeroDivisionError")
  | _ =>
      Ok (inject_Z (Z.of_nat (length zero))
          / inject_Z (Z.of_nat (length (columns desc))) * 100)%Q
  end.

(** [desc[col]] for a column label of a table whose labels are distinct
    (for a repeated label pandas returns the table of the columns that
    carry it; the properties of the report assume distinct labels). *)
Definition getitem (col : string) (desc : Frame) : result Series :=
  match filter (fun s => col_name s = col) desc with
  | s :: _ => Ok s
  | [] => Raise (OtherError "KeyError")
  end.

(** [series.iloc[0]] *)
Definition iloc_0 (s : Series) : result cell :=
  match col_values s with
  | c :: _ => Ok c
  | [] => Raise (OtherError "IndexError")
  end.

(** Cell 21 as a whole: the zero-deviation labels, the percentage, and for
    every such label the line [col: desc[col].iloc[0]] of the loop under
    [if len(zero_std_cols) > 0]. *)
Definition constants_report {pd : Pandas} (desc : Frame)
  : result (list string * Q * list (string * cell)) :=
  (do zero <- zero_std_cols desc;
   do percent <- percent_constant zero desc;
   do lines <-
     (if (0 <? length zero)%nat
      then comprehension
             (fun col =>
                do s <- getitem col desc;
                do c <- iloc_0 s;
                Ok (col, c))
             zero
      else Ok []);
   Ok (zero, percent, lines))%result.

(** [df.groupby(key)], iterated: the groups in increasing order of the
    key, each with its rows in their original order; a row without the key
    belongs to no group. *)
Definition groupby_key {A} (key : A -> option nat) (rows : list A)
  : list (nat * list A) :=
  map (fun k => (k, filter (fun r => key r = Some k) rows))
      (merge_sort Nat.le (remove_dups (omap key rows))).

(** Cell 67: for every group of [results.groupby('length')] the groups of
    [group.groupby('train_size')], whose means are plotted as one curve. *)
Definition curves {ml : MLLibs} (results : list dict)
  : list (nat * list (nat * list dict)) :=
  map (fun gid_group : nat * list dict =>
         (gid_group.1,
          groupby_key (fun d => int_field d "train_size") gid_group.2))
      (groupby_key (fun d => int_field d "length") results).

(** The repetition indices of the records behind every point of every
    curve. *)
Definition curve_points {ml : MLLibs} (results : list dict)
  : list (nat * list (nat * list (option nat))) :=
  map (fun curve : nat * list (nat * list dict) =>
         (curve.1,
          map (fun point : nat * list dict =>
                 (point.1, map (fun d => int_field d "iteration") point.2))
              curve.2))
      (curves results).

(** The three integer fields of a record. *)
Definition record_ints {ml : MLLibs} (d : dict) : option nat * option nat * option nat :=
  (int_field d "length", int_field d "train_size", int_field d "iteration").

(** [curve_points] computed from the integer fields alone. *)
Definition points_of_ints (ints : list (option nat * option nat * option nat))
  : list (nat * list (nat * list (option nat))) :=
  map (fun curve : nat * list (option nat * option nat * option nat) =>
         (curve.1,
          map (fun point : nat * list (option nat * option nat * option nat) =>
                 (point.1, map (fun t : option nat * option nat * option nat => t.2)
                               point.2))
              (groupby_key (fun t : option nat * option nat * option nat => t.1.2)
                           curve.2)))
      (groupby_key (fun t : option nat * option nat * option nat => t.1.1) ints).

(* ================================================================== *)
(** * 8. Fingerprints: lemmas and theorems *)
(* ================================================================== *)

Section Fingerprints.
Context {rd : RDKit}.

Lemma result_bind_Ok {A B} (r : result A) (k : A -> result B) (b : B) :
  result_bind r k = Ok b -> exists a, r = Ok a /\ k a = Ok b.
Proof. destruct r as [a|e]; simpl; [eauto | discriminate]. Qed.

Lemma comprehension_Ok_inv {A B} (f : A -> result B) (xs : list A) (ys : list B) :
  comprehension f xs = Ok ys -> Forall2 (fun x y => f x = Ok y) xs ys.
Proof.
  revert ys. induction xs as [|x xs IH]; intros ys H; simpl in H.
  - inversion H. constructor.
  - apply result_bind_Ok in H as (y & Hy & H).
    apply result_bind_Ok in H as (ys' & Hys & H).
    inversion H; subst ys. constructor; [assumption | apply IH, Hys].
Qed.

Lemma PyArray_Resize_length (arr : ndarray) (n : nat) :
  length (PyArray_Resize arr n) = n.
Proof.
  unfold PyArray_Resize.
  rewrite length_app, length_take, length_replicate. lia.
Qed.

Lemma overwrite_all {A B} (dest : list A) (src : list B) :
  length dest = length src -> zip_with (fun _ b => b) dest src = src.
Proof.
  revert src. induction dest as [|d dest IH]; intros [|b src] Hlen;
    simpl in *; try discriminate; try reflexivity.
  f_equal. apply IH. lia.
Qed.

(** After [ConvertToNumpyArray] the destination holds exactly the bits,
    whatever it held before. *)
Lemma ConvertToNumpyArray_bits (bv : ExplicitBitVect) (arr : ndarray) :
  ConvertToNumpyArray bv arr = bv.
Proof.
  unfold ConvertToNumpyArray. apply overwrite_all.
  apply PyArray_Resize_length.
Qed.

Lemma index_loop_prefix (bv dest : list bool) (n : nat) :
  length dest = length bv -> n <= length bv ->
  foldl (fun d i => <[i := bv !!! i]> d) dest (seq 0 n) = take n bv ++ drop n dest.
Proof.
  intros Hlen. induction n as [|n IH]; intros Hn.
  - simpl. rewrite drop_0. reflexivity.
  - rewrite seq_S, foldl_app. simpl. rewrite IH by lia.
    assert (Hb : is_Some (bv !! n)) by (apply lookup_lt_is_Some; lia).
    destruct Hb as [b Hb].
    rewrite (list_lookup_total_correct _ _ _ Hb).
    rewrite (take_S_r _ _ _ Hb).
    rewrite insert_app_r_alt by (rewrite length_take; lia).
    rewrite length_take, Nat.min_l, Nat.sub_diag by lia.
    assert (Hd : is_Some (dest !! n)) by (apply lookup_lt_is_Some; lia).
    destruct Hd as [d Hd].
    rewrite (drop_S _ _ _ Hd). simpl.
    rewrite <- app_assoc. reflexivity.
Qed.

(** The index loop and the position-wise copy agree. *)
Lemma ConvertToNumpyArray_loop_eq (bv : ExplicitBitVect) (arr : ndarray) :
  ConvertToNumpyArray_loop bv arr = ConvertToNumpyArray bv arr.
Proof.
  rewrite ConvertToNumpyArray_bits. unfold ConvertToNumpyArray_loop, GetNumBits.
  rewrite index_loop_prefix by (rewrite ?PyArray_Resize_length; lia).
  rewrite take_ge by lia.
  rewrite drop_ge by (rewrite PyArray_Resize_length; lia).
  apply app_nil_r.
Qed.

(** On a string that parses, [compute_morgan_fingerprints] returns the
    bits of the toolkit's fingerprint. *)
Lemma as_unsigned_int_valid (l : nat) :
  (Z.of_nat l <= UINT_MAX)%Z -> as_unsigned_int l = Ok l.
Proof.
  intros Hl. unfold as_unsigned_int.
  destruct (Z.leb_spec (Z.of_nat l) UINT_MAX); [reflexivity | lia].
Qed.

Lemma as_unsigned_int_overflow (l : nat) :
  (UINT_MAX < Z.of_nat l)%Z -> as_unsigned_int l = Raise (OtherError "OverflowError").
Proof.
  intros Hl. unfold as_unsigned_int.
  destruct (Z.leb_spec (Z.of_nat l) UINT_MAX); [lia | reflexivity].
Qed.

Lemma compute_morgan_fingerprints_parsed (smiles : string) (mol : Mol) (l r : nat) :
  MolFromSmiles smiles = Some mol ->
  valid_length l ->
  compute_morgan_fingerprints smiles l r = Ok (GetMorganFingerprintAsBitVect mol r l).
Proof.
  intros Hparse [Hpos Hmax].
  unfold compute_morgan_fingerprints, AllChem_GetMorganFingerprintAsBitVect.
  rewrite Hparse. cbn [as_ROMol result_bind].
  rewrite (as_unsigned_int_valid l Hmax). cbn [result_bind].
  destruct (Nat.eqb_spec l 0) as [->|_]; [lia|]. cbn [result_bind].
  rewrite ConvertToNumpyArray_bits. reflexivity.
Qed.

(** On a string that parses, a length that the binding or the toolkit
    refuses makes [compute_morgan_fingerprints] raise. *)
Lemma compute_morgan_fingerprints_bad_length (smiles : string) (mol : Mol) (l r : nat) :
  MolFromSmiles smiles = Some mol ->
  (l = 0 -> compute_morgan_fingerprints smiles l r = Raise ValueError)
  /\ ((UINT_MAX < Z.of_nat l)%Z ->
      compute_morgan_fingerprints smiles l r = Raise (OtherError "OverflowError")).
Proof.
  intros Hparse.
  unfold compute_morgan_fingerprints, AllChem_GetMorganFingerprintAsBitVect.
  rewrite Hparse. cbn [as_ROMol result_bind]. split.
  - intros ->. reflexivity.
  - intros Hl. rewrite (as_unsigned_int_overflow l Hl). reflexivity.
Qed.

Lemma compute_morgan_fingerprints_newvers_parsed (smiles : string) (mol : Mol) (l r : nat) :
  MolFromSmiles smiles = Some mol ->
  compute_morgan_fingerprints_newvers smiles l r
  = Ok (GetFingerprint (GetMorganGenerator_positional2 r l) mol).
Proof.
  intros Hparse. unfold compute_morgan_fingerprints_newvers. rewrite Hparse. simpl.
  rewrite ConvertToNumpyArray_bits. reflexivity.
Qed.

(** On a string that does not parse, both functions raise: the null
    molecule is handed to the toolkit. *)
Lemma compute_morgan_fingerprints_unparsed (smiles : string) (l r : nat) :
  MolFromSmiles smiles = None ->
  compute_morgan_fingerprints smiles l r = Raise ArgumentError
  /\ compute_morgan_fingerprints_newvers smiles l r = Raise ArgumentError.
Proof.
  intros Hparse.
  unfold compute_morgan_fingerprints, compute_morgan_fingerprints_newvers,
    AllChem_GetMorganFingerprintAsBitVect.
  rewrite Hparse. split; reflexivity.
Qed.

(** The sibling [compute_morgan_fingerprints] does return the requested
    number of bits. *)
Lemma compute_morgan_fingerprints_length
    {spec : RDKitSpec rd} (smiles : string) (mol : Mol) (l r : nat) :
  MolFromSmiles smiles = Some mol ->
  valid_length l ->
  exists arr, compute_morgan_fingerprints smiles l r = Ok arr /\ length arr = l.
Proof.
  intros Hparse Hl. eexists. split.
  - apply compute_morgan_fingerprints_parsed; [exact Hparse | exact Hl].
  - apply GetMorganFingerprintAsBitVect_numbits.
Qed.

(** C1 (code defect).  [compute_morgan_fingerprints_newvers] passes the
    requested length in the position of [countSimulation]: on every string
    that parses it returns 2048 bits, so for a requested length other than
    2048 the result does not have the requested length. *)
Theorem compute_morgan_fingerprints_newvers_ignores_length
    {spec : RDKitSpec rd} (smiles : string) (mol : Mol) (l r : nat) :
  MolFromSmiles smiles = Some mol ->
  l <> 2048 ->
  exists arr,
    compute_morgan_fingerprints_newvers smiles l r = Ok arr
    /\ length arr = 2048
    /\ length arr <> l.
Proof.
  intros Hparse Hl.
  pose proof (GetFingerprint_numbits (GetMorganGenerator_positional2 r l) mol) as Hbits.
  unfold GetNumBits in Hbits. simpl in Hbits.
  eexists. split; [|split].
  - apply compute_morgan_fingerprints_newvers_parsed, Hparse.
  - exact Hbits.
  - rewrite Hbits. congruence.
Qed.

End Fingerprints.

Lemma demo_pattern_length (phase size : nat) : length (demo_pattern phase size) = size.
Proof. revert phase. induction size; intros; simpl; [reflexivity | f_equal; apply IHsize]. Qed.

Lemma demo_rdkit_spec : RDKitSpec demo_rdkit.
Proof.
  split; intros; simpl; unfold GetNumBits, demo_bits; apply demo_pattern_length.
Defined.

Lemma compute_morgan_fingerprints_newvers_ignores_length_witness :
  exists arr,
    compute_morgan_fingerprints_newvers (rd := demo_rdkit) "C" 4 2 = Ok arr
    /\ length arr = 2048
    /\ length arr <> 4.
Proof.
  apply (compute_morgan_fingerprints_newvers_ignores_length
           (rd := demo_rdkit) (spec := demo_rdkit_spec) "C" "C" 4 2).
  - reflexivity.
  - lia.
Defined.

(* ================================================================== *)
(** * 9. The sweep: lemmas and theorems *)
(* ================================================================== *)

Section Sweep.
Context {rd : RDKit} {ml : MLLibs}.

Lemma Pipeline_fit_fingerprint (m fitted : Pipeline) (X : list string) (y : list float) :
  Pipeline_fit m X y = Ok fitted -> fingerprint fitted = fingerprint m.
Proof.
  unfold Pipeline_fit. intros H.
  apply result_bind_Ok in H as (Xt & _ & H).
  apply result_bind_Ok in H as (k & _ & H).
  inversion H. reflexivity.
Qed.

(** One iteration: the partitions are untouched; on success exactly one
    record is appended and the fingerprint parameters are kept; on an
    exception [results] is as before. *)
Lemma iteration_cases (l s i : nat) (w : World) :
  train_data (iteration l s i w).2 = train_data w
  /\ test_data (iteration l s i w).2 = test_data w
  /\ match (iteration l s i w).1 with
     | Ok _ =>
         fingerprint (model (iteration l s i w).2) = fingerprint (model w)
         /\ exists d,
              results (iteration l s i w).2 = results w ++ [d]
              /\ (model_length w = l ->
                  appended (train_data w) (test_data w) (l, s, i) d)
     | Raise _ => results (iteration l s i w).2 = results w
     end.
Proof.
  unfold iteration, M_bind, train_data_sample, model_fit, model_predict,
    M_read, M_call, results_append.
  destruct (DataFrame_sample (random_state w) (train_data w) s)
    as [[subset|e] rs'] eqn:Hsample; simpl; [|auto].
  destruct (Pipeline_fit (model w) (col_smiles_0 subset) (col_bandgap subset))
    as [fitted|e] eqn:Hfit; simpl; [|auto].
  destruct (Pipeline_predict fitted (col_smiles_0 (test_data w)))
    as [y_pred|e] eqn:Hpred; simpl; [|auto].
  destruct (r2_score (col_bandgap (test_data w)) y_pred) as [r2|e] eqn:Hr2;
    simpl; [|auto].
  destruct (mean_absolute_error (col_bandgap (test_data w)) y_pred)
    as [mae|e] eqn:Hmae; simpl; [|auto].
  repeat split.
  - eapply Pipeline_fit_fingerprint, Hfit.
  - eexists. split; [reflexivity|]. intros Hlen.
    exists (random_state w), rs', subset, (model w), fitted, y_pred, r2, mae.
    repeat split; assumption.
Qed.

Lemma covers_ret (I : World -> Prop) : covers I I (M_ret tt) [].
Proof.
  intros w Hw. exists 0, []. simpl. rewrite app_nil_r.
  repeat split; auto.
Qed.

Lemma covers_post (Pre Post Post' : World -> Prop) (c : M unit) ps :
  (forall w, Post w -> Post' w) -> covers Pre Post c ps -> covers Pre Post' c ps.
Proof.
  intros Himp Hc w Hw.
  destruct (Hc w Hw) as (k & new & Hres & Htr & Hte & Hall & Hout).
  exists k, new. repeat split; try assumption.
  destruct (c w).1; [|assumption].
  destruct Hout. split; auto.
Qed.

Lemma covers_seq (Pre Mid Post : World -> Prop) (c1 c2 : M unit) ps1 ps2 :
  covers Pre Mid c1 ps1 -> covers Mid Post c2 ps2 ->
  covers Pre Post (M_bind c1 (fun _ => c2)) (ps1 ++ ps2).
Proof.
  intros H1 H2 w Hw.
  destruct (H1 w Hw) as (k1 & new1 & Hres1 & Htr1 & Hte1 & Hall1 & Hout1).
  unfold M_bind. destruct (c1 w) as [[[]|e] w1] eqn:Hc1; simpl in *.
  - destruct Hout1 as [-> Hmid].
    destruct (H2 w1 Hmid) as (k2 & new2 & Hres2 & Htr2 & Hte2 & Hall2 & Hout2).
    exists (length ps1 + k2), (new1 ++ new2).
    rewrite Hres2, Hres1, Htr2, Hte2, Htr1, Hte1, <- app_assoc.
    repeat split.
    + rewrite take_app_add'; [|reflexivity].
      rewrite take_ge in Hall1 by lia.
      apply Forall2_app; [assumption|].
      rewrite Htr1, Hte1 in Hall2. assumption.
    + destruct (c2 w1).1.
      * destruct Hout2 as [-> Hpost]. rewrite length_app. auto.
      * destruct Hout2 as (l & s & i & w_k & Hpos & Hwk & Hit).
        exists l, s, i, w_k. repeat split; [| |assumption].
        -- rewrite lookup_app_r by lia.
           replace (length ps1 + k2 - length ps1) with k2 by lia. assumption.
        -- rewrite Hwk, Hres1, <- app_assoc. reflexivity.
  - destruct Hout1 as (l & s & i & w_k & Hpos & Hwk & Hit).
    exists k1, new1. repeat split; try assumption.
    + assert (k1 < length ps1) by (eapply lookup_lt_Some, Hpos).
      rewrite take_app_le by lia. assumption.
    + exists l, s, i, w_k. repeat split; try assumption.
      apply lookup_app_l_Some. assumption.
Qed.

Lemma covers_for_each {A} (I : World -> Prop) (xs : list A)
    (body : A -> M unit) (f : A -> list (nat * nat * nat)) :
  (forall x, covers I I (body x) (f x)) ->
  covers I I (for_each xs body) (xs ≫= f).
Proof.
  intros Hbody. induction xs as [|x xs IH]; simpl.
  - apply covers_ret.
  - apply (covers_seq I I I); [apply Hbody | apply IH].
Qed.

Lemma covers_iteration (l s i : nat) :
  covers (fun w => model_length w = l) (fun w => model_length w = l)
         (iteration l s i) [(l, s, i)].
Proof.
  intros w Hw.
  destruct (iteration_cases l s i w) as (Htr & Hte & Hout).
  destruct (iteration l s i w) as [[[]|e] w'] eqn:Hit; simpl in *.
  - destruct Hout as (Hfp & d & Hres & Happ).
    exists 1, [d]. repeat split; try assumption.
    + simpl. constructor; [exact (Happ Hw) | constructor].
    + unfold model_length. rewrite Hfp. exact Hw.
  - exists 0, []. rewrite app_nil_r. repeat split; try assumption.
    + constructor.
    + exists l, s, i, w. repeat split. exact Hit.
Qed.

Lemma covers_set_params (l : nat) :
  covers (fun _ => True) (fun w => model_length w = l) (model_set_params l) [].
Proof.
  intros w _. exists 0, []. simpl. rewrite app_nil_r.
  repeat split; constructor.
Qed.

Lemma covers_train_sizes (l : nat) :
  covers (fun w => model_length w = l) (fun w => model_length w = l)
    (for_each sweep_train_sizes (fun s =>
       for_each sweep_repetitions (fun i => iteration l s i)))
    (s ← sweep_train_sizes; i ← sweep_repetitions; [(l, s, i)]).
Proof.
  refine (covers_for_each _ sweep_train_sizes _
            (fun s => i ← sweep_repetitions; [(l, s, i)]) _).
  intros s.
  refine (covers_for_each _ sweep_repetitions _ (fun i => [(l, s, i)]) _).
  intros i. apply covers_iteration.
Qed.

(** The loop nest walks [sweep_grid]. *)
Lemma covers_loops :
  covers (fun _ => True) (fun _ => True)
    (for_each sweep_lengths (fun l =>
       M_bind (model_set_params l) (fun _ =>
         for_each sweep_train_sizes (fun s =>
           for_each sweep_repetitions (fun i => iteration l s i)))))
    sweep_grid.
Proof.
  refine (covers_for_each _ sweep_lengths _
            (fun l => s ← sweep_train_sizes; i ← sweep_repetitions; [(l, s, i)]) _).
  intros l.
  apply covers_post with (Post := fun w => model_length w = l); [auto|].
  exact (covers_seq _ _ _ _ _ [] _ (covers_set_params l) (covers_train_sizes l)).
Qed.

Lemma sweep_unfold (w : World) :
  sweep w
  = for_each sweep_lengths (fun l =>
      M_bind (model_set_params l) (fun _ =>
        for_each sweep_train_sizes (fun s =>
          for_each sweep_repetitions (fun i => iteration l s i))))
      {| results := []; model := model w; train_data := train_data w;
         test_data := test_data w; random_state := random_state w |}.
Proof. reflexivity. Qed.

(** The whole cell: [results] starts empty, so it holds exactly the new
    records. *)
Lemma sweep_spec (w : World) :
  exists k,
    train_data (sweep w).2 = train_data w
    /\ test_data (sweep w).2 = test_data w
    /\ Forall2 (appended (train_data w) (test_data w))
               (take k sweep_grid) (results (sweep w).2)
    /\ match (sweep w).1 with
       | Ok _ => k = length sweep_grid
       | Raise e =>
           exists l s i w_k,
             sweep_grid !! k = Some (l, s, i)
             /\ results w_k = results (sweep w).2
             /\ iteration l s i w_k = (Raise e, (sweep w).2)
       end.
Proof.
  rewrite sweep_unfold.
  match goal with
  | |- context [ for_each sweep_lengths ?body ?w0 ] =>
      destruct (covers_loops w0 I) as (k & new & Hres & Htr & Hte & Hall & Hout);
      cbn [results train_data test_data app] in Hres, Htr, Hte, Hall, Hout
  end.
  exists k. rewrite Hres, Htr, Hte. repeat split; try assumption.
  match goal with
  | |- match ?x with _ => _ end => destruct x as [[]|e]
  end.
  - tauto.
  - destruct Hout as (l & s & i & w_k & ? & ? & ?). exists l, s, i, w_k. auto.
Qed.

End Sweep.

Section SweepTheorems.
Context {rd : RDKit} {ml : MLLibs}.

Lemma sweep_grid_length : length sweep_grid = 336.
Proof. reflexivity. Qed.

Lemma result_record_dom (l s i : nat) (r2 mae : float) :
  dom (result_record l s i r2 mae) = result_keys.
Proof.
  unfold result_record, result_keys.
  rewrite !dom_insert_L, dom_empty_L. set_solver.
Qed.

Lemma result_record_fields (l s i : nat) (r2 mae : float) :
  result_record l s i r2 mae !! "length" = Some (VInt l)
  /\ result_record l s i r2 mae !! "train_size" = Some (VInt s)
  /\ result_record l s i r2 mae !! "iteration" = Some (VInt i)
  /\ result_record l s i r2 mae !! "r2_score" = Some (VFloat r2)
  /\ result_record l s i r2 mae !! "mae" = Some (VFloat mae).
Proof. repeat split; reflexivity. Qed.

Lemma appended_record train test l s i d :
  appended train test (l, s, i) d -> exists r2 mae, d = result_record l s i r2 mae.
Proof.
  intros (rs & rs' & subset & m0 & fitted & y & r2 & mae & _ & _ & _ & _ & _ & _ & ->).
  eauto.
Qed.

(** The record at index [p] of the final [results] was appended at the
    [p]-th loop position. *)
Lemma sweep_results_lookup (w : World) (p : nat) (d : dict) :
  results (sweep w).2 !! p = Some d ->
  exists l s i,
    sweep_grid !! p = Some (l, s, i)
    /\ appended (train_data w) (test_data w) (l, s, i) d.
Proof.
  intros Hd. destruct (sweep_spec w) as (k & _ & _ & Hall & _).
  destruct (Forall2_lookup_r _ _ _ _ _ Hall Hd) as ([[l s] i] & Hpos & Happ).
  exists l, s, i. split; [|assumption].
  apply lookup_take_Some in Hpos. tauto.
Qed.

Lemma lex_ltb_lt (p q : nat * nat * nat) : lex_ltb p q = true -> lex_lt p q.
Proof.
  unfold lex_ltb, lex_lt. intros H.
  apply orb_true_iff in H as [H|H]; [left; apply Nat.ltb_lt, H|].
  apply andb_true_iff in H as [H1 H]. apply Nat.eqb_eq in H1. right. split; [assumption|].
  apply orb_true_iff in H as [H|H]; [left; apply Nat.ltb_lt, H|].
  apply andb_true_iff in H as [H2 H]. apply Nat.eqb_eq in H2. apply Nat.ltb_lt in H. auto.
Qed.

Lemma lex_lt_trans (p q r : nat * nat * nat) : lex_lt p q -> lex_lt q r -> lex_lt p r.
Proof. unfold lex_lt. lia. Qed.

Lemma increasingb_head (p : nat * nat * nat) (ps : list (nat * nat * nat)) k q :
  increasingb (p :: ps) = true -> ps !! k = Some q -> lex_lt p q.
Proof.
  revert p k. induction ps as [|p' ps IH]; intros p k Hinc Hq; [discriminate|].
  simpl in Hinc. apply andb_true_iff in Hinc as [Hpp' Hinc].
  apply lex_ltb_lt in Hpp'.
  destruct k as [|k]; simpl in Hq.
  - inversion Hq; subst. assumption.
  - eapply lex_lt_trans; [exact Hpp' | eapply IH; eassumption].
Qed.

Lemma increasingb_tail (p : nat * nat * nat) ps :
  increasingb (p :: ps) = true -> increasingb ps = true.
Proof.
  destruct ps as [|q ps]; [reflexivity|]. simpl. intros H.
  apply andb_true_iff in H. tauto.
Qed.

Lemma increasingb_lookup (ps : list (nat * nat * nat)) j k p q :
  increasingb ps = true -> j < k -> ps !! j = Some p -> ps !! k = Some q -> lex_lt p q.
Proof.
  revert j k. induction ps as [|p0 ps IH]; intros j k Hinc Hjk Hp Hq; [discriminate|].
  destruct j as [|j]; simpl in Hp.
  - inversion Hp; subst. destruct k as [|k]; [lia|]. simpl in Hq.
    eapply increasingb_head; eassumption.
  - destruct k as [|k]; [lia|]. simpl in Hq.
    apply (IH j k); [eapply increasingb_tail, Hinc | lia | assumption | assumption].
Qed.

(** Every grid entry has a loop position, and these positions increase
    strictly along the grid. *)
Lemma grid_positions_increasing :
  exists positions,
    mapM grid_position sweep_grid = Some positions /\ increasingb positions = true.
Proof. eexists. split; vm_compute; reflexivity. Qed.

Lemma loop_position_record (l s i : nat) (r2 mae : float) :
  loop_position (result_record l s i r2 mae) = grid_position (l, s, i).
Proof. reflexivity. Qed.

Lemma sweep_grid_ranges (p : nat) (pos : nat * nat * nat) :
  sweep_grid !! p = Some pos -> in_sweep_ranges pos = true.
Proof.
  assert (H : forallb in_sweep_ranges sweep_grid = true) by (vm_compute; reflexivity).
  intros Hp. rewrite forallb_forall in H. apply H.
  apply list_elem_of_In. eapply list_elem_of_lookup_2, Hp.
Qed.

(** C2.  When the sweep runs to completion, [results] holds exactly
    3 * 7 * 16 = 336 records: one per combination of fingerprint length,
    training-set size and repetition. *)
Theorem sweep_record_count (w : World) :
  (sweep w).1 = Ok tt ->
  length (results (sweep w).2) = 336
  /\ 336 = length sweep_lengths * length sweep_train_sizes * length sweep_repetitions.
Proof.
  intros Hok. split; [|reflexivity].
  destruct (sweep_spec w) as (k & _ & _ & Hall & Hout).
  rewrite Hok in Hout. subst k.
  apply Forall2_length in Hall. rewrite <- Hall.
  rewrite take_ge by lia. apply sweep_grid_length.
Qed.

(** C5.  Records sit in [results] in the lexicographic order of their loop
    positions (length index, then size index, then repetition index): of
    two records, the earlier one has the strictly smaller position; and a
    completed sweep has visited every position of the grid. *)
Theorem sweep_records_in_loop_order (w : World) (j k : nat) (dj dk : dict) :
  results (sweep w).2 !! j = Some dj ->
  results (sweep w).2 !! k = Some dk ->
  j < k ->
  (exists pj pk,
     loop_position dj = Some pj /\ loop_position dk = Some pk /\ lex_lt pj pk)
  /\ ((sweep w).1 = Ok tt ->
      Forall2 (fun pos d => loop_position d = grid_position pos)
              sweep_grid (results (sweep w).2)).
Proof.
  intros Hj Hk Hjk. split.
  - destruct (sweep_results_lookup w j dj Hj) as (lj & sj & ij & Hgj & Haj).
    destruct (sweep_results_lookup w k dk Hk) as (lk & sk & ik & Hgk & Hak).
    apply appended_record in Haj as (? & ? & ->).
    apply appended_record in Hak as (? & ? & ->).
    rewrite !loop_position_record.
    destruct grid_positions_increasing as (positions & Hmap & Hinc).
    apply mapM_Some in Hmap.
    destruct (Forall2_lookup_l _ _ _ _ _ Hmap Hgj) as (pj & Hpj & Hgpj).
    destruct (Forall2_lookup_l _ _ _ _ _ Hmap Hgk) as (pk & Hpk & Hgpk).
    exists pj, pk. repeat split; try assumption.
    eapply increasingb_lookup; eassumption.
  - intros Hok. destruct (sweep_spec w) as (n & _ & _ & Hall & Hout).
    rewrite Hok in Hout. subst n. rewrite take_ge in Hall by lia.
    eapply Forall2_impl; [exact Hall|].
    intros [[l s] i] d Happ. apply appended_record in Happ as (? & ? & ->).
    apply loop_position_record.
Qed.

(** *** The loop nest as a sequence of passes *)

Lemma M_bind_ext {A B} (c : M A) (k1 k2 : A -> M B) (w : World) :
  (forall a w', k1 a w' = k2 a w') -> M_bind c k1 w = M_bind c k2 w.
Proof. intros H. unfold M_bind. destruct (c w) as [[a|e] w']; [apply H | reflexivity]. Qed.

Lemma M_bind_assoc {A B C} (c : M A) (k : A -> M B) (h : B -> M C) (w : World) :
  M_bind (M_bind c k) h w = M_bind c (fun a => M_bind (k a) h) w.
Proof. unfold M_bind. destruct (c w) as [[a|e] w']; reflexivity. Qed.

Lemma for_each_app {A} (xs ys : list A) (body : A -> M unit) (w : World) :
  for_each (xs ++ ys) body w
  = M_bind (for_each xs body) (fun _ => for_each ys body) w.
Proof.
  revert w. induction xs as [|x xs IH]; intros w; simpl.
  - reflexivity.
  - rewrite M_bind_assoc. apply M_bind_ext. intros _ w'. apply IH.
Qed.

Lemma for_each_ext {A} (xs : list A) (body1 body2 : A -> M unit) (w : World) :
  (forall x w', body1 x w' = body2 x w') -> for_each xs body1 w = for_each xs body2 w.
Proof.
  intros H. revert w. induction xs as [|x xs IH]; intros w; simpl; [reflexivity|].
  unfold M_bind. rewrite H. destruct (body2 x w) as [[[]|e] w']; [apply IH | reflexivity].
Qed.

Lemma for_each_bind {A B} (xs : list A) (f : A -> list B) (g : B -> M unit) (w : World) :
  for_each xs (fun x => for_each (f x) g) w = for_each (xs ≫= f) g w.
Proof.
  revert w. induction xs as [|x xs IH]; intros w; simpl; [reflexivity|].
  rewrite for_each_app. apply M_bind_ext. intros _ w'. apply IH.
Qed.

Lemma for_each_singleton (c : M unit) (w : World) :
  for_each [c] (fun c0 => c0) w = c w.
Proof.
  change (for_each [c] (fun c0 => c0) w) with (M_bind c (fun _ => M_ret tt) w).
  unfold M_bind, M_ret. destruct (c w) as [[[]|e] w']; reflexivity.
Qed.

(** The two inner loops for one length, as a sequence of passes. *)
Lemma train_sizes_as_steps (l : nat) (w : World) :
  for_each sweep_train_sizes (fun s =>
    for_each sweep_repetitions (fun i => iteration l s i)) w
  = run_steps (s ← sweep_train_sizes; i ← sweep_repetitions; [iteration l s i]) w.
Proof.
  unfold run_steps.
  rewrite <- (for_each_bind sweep_train_sizes
                (fun s => i ← sweep_repetitions; [iteration l s i]) (fun c => c)).
  apply for_each_ext. intros s w1.
  rewrite <- (for_each_bind sweep_repetitions (fun i => [iteration l s i]) (fun c => c)).
  apply for_each_ext. intros i w2.
  symmetry. apply for_each_singleton.
Qed.

(** The cell runs its passes in order, starting from empty [results]. *)
Lemma sweep_as_steps (w : World) :
  sweep w = run_steps sweep_steps (results_clear w).2.
Proof.
  rewrite sweep_unfold. unfold run_steps at 1, sweep_steps.
  change (results_clear w).2
    with {| results := []; model := model w; train_data := train_data w;
            test_data := test_data w; random_state := random_state w |}.
  rewrite <- (for_each_bind sweep_lengths
                (fun l => model_set_params l
                          :: (s ← sweep_train_sizes; i ← sweep_repetitions;
                              [iteration l s i]))
                (fun c => c)).
  apply for_each_ext. intros l w1.
  change (for_each
            (model_set_params l
             :: (s ← sweep_train_sizes; i ← sweep_repetitions; [iteration l s i]))
            (fun c => c) w1)
    with (M_bind (model_set_params l)
            (fun _ => run_steps
                        (s ← sweep_train_sizes; i ← sweep_repetitions;
                         [iteration l s i])) w1).
  apply M_bind_ext. intros _ w2. apply train_sizes_as_steps.
Qed.

(** If the passes before some pass return and that pass raises, the whole
    sequence raises the same exception and stops where that pass stopped. *)
Lemma run_steps_abort (steps : list (M unit)) (n : nat) (c : M unit) (w : World) :
  steps !! n = Some c ->
  (run_steps (take n steps) w).1 = Ok tt ->
  forall e, (c (run_steps (take n steps) w).2).1 = Raise e ->
  run_steps steps w = c (run_steps (take n steps) w).2.
Proof.
  intros Hc Hprefix e Hraise. unfold run_steps in *.
  rewrite <- (take_drop_middle steps n c Hc) at 1.
  rewrite for_each_app. unfold M_bind at 1.
  destruct (for_each (take n steps) (fun c0 => c0) w) as [[[]|e0] w_n];
    simpl in *; [|discriminate].
  unfold M_bind. destruct (c w_n) as [[[]|e1] w']; simpl in *; [discriminate|].
  reflexivity.
Qed.

(** A pass that raises leaves [results] as it found it. *)
Lemma sweep_step_raise (c : M unit) (w : World) (e : exn) :
  c ∈ sweep_steps -> (c w).1 = Raise e -> results (c w).2 = results w.
Proof.
  unfold sweep_steps. intros Hc Hraise.
  apply list_elem_of_bind in Hc as (l & Hc & _).
  apply elem_of_cons in Hc as [->|Hc]; [discriminate|].
  apply list_elem_of_bind in Hc as (s & Hc & _).
  apply list_elem_of_bind in Hc as (i & Hc & _).
  apply list_elem_of_singleton in Hc as ->.
  destruct (iteration_cases l s i w) as (_ & _ & Hout).
  rewrite Hraise in Hout. exact Hout.
Qed.

(** C6.  An exception aborts the whole sweep.  First: if the passes before
    some pass of the loop nest have returned and that pass raises, the
    sweep raises the same exception and ends in the state in which that
    pass ended, so no later iteration runs; [results] is what it was when
    the failing pass began, so the failing iteration appends nothing and
    the records of the completed iterations are unchanged.  Second: a
    sweep that raises has been aborted in this way by the iteration at
    some grid position [k], and [results] holds exactly the [k] records of
    the iterations before it. *)
Theorem sweep_aborts_on_exception (w : World) :
  (forall (n : nat) (c : M unit) (e : exn),
     sweep_steps !! n = Some c ->
     (run_steps (take n sweep_steps) (results_clear w).2).1 = Ok tt ->
     (c (run_steps (take n sweep_steps) (results_clear w).2).2).1 = Raise e ->
     sweep w = c (run_steps (take n sweep_steps) (results_clear w).2).2
     /\ (sweep w).1 = Raise e
     /\ results (sweep w).2
        = results (run_steps (take n sweep_steps) (results_clear w).2).2)
  /\ (forall e : exn,
        (sweep w).1 = Raise e ->
        exists k l s i w_k,
          k < 336
          /\ sweep_grid !! k = Some (l, s, i)
          /\ length (results w_k) = k
          /\ Forall2 (appended (train_data w) (test_data w))
                     (take k sweep_grid) (results w_k)
          /\ iteration l s i w_k = (Raise e, (sweep w).2)
          /\ results (sweep w).2 = results w_k).
Proof.
  split.
  - intros n c e Hc Hprefix Hraise.
    pose proof (run_steps_abort sweep_steps n c _ Hc Hprefix e Hraise) as Hrun.
    rewrite <- sweep_as_steps in Hrun.
    split; [exact Hrun|]. rewrite Hrun. split; [exact Hraise|].
    apply (sweep_step_raise c _ e); [|exact Hraise].
    eapply list_elem_of_lookup_2, Hc.
  - intros e Hraise. destruct (sweep_spec w) as (k & _ & _ & Hall & Hout).
    rewrite Hraise in Hout. destruct Hout as (l & s & i & w_k & Hpos & Hres & Hit).
    assert (Hk : k < 336).
    { rewrite <- sweep_grid_length. eapply lookup_lt_Some, Hpos. }
    exists k, l, s, i, w_k. rewrite Hres.
    split; [assumption|]. split; [assumption|].
    split; [|split; [assumption|split; [assumption|reflexivity]]].
    apply Forall2_length in Hall. rewrite <- Hall, length_take, sweep_grid_length. lia.
Qed.

(** C8.  Every record in [results] is a dict with exactly the five keys
    length, train_size, iteration, r2_score and mae.  The record at index
    [p] was appended at the [p]-th loop position [(l, s, i)]: its length is
    [l], the fingerprint length set on the pipeline that was fitted for it;
    its train_size is [s], the size of the sample drawn for it; its
    iteration is [i], with [i < 16]. *)
Theorem sweep_record_fields (w : World) (p : nat) (d : dict) :
  results (sweep w).2 !! p = Some d ->
  exists l s i r2 mae,
    sweep_grid !! p = Some (l, s, i)
    /\ appended (train_data w) (test_data w) (l, s, i) d
    /\ dom d = result_keys
    /\ d !! "length" = Some (VInt l)
    /\ d !! "train_size" = Some (VInt s)
    /\ d !! "iteration" = Some (VInt i)
    /\ d !! "r2_score" = Some (VFloat r2)
    /\ d !! "mae" = Some (VFloat mae)
    /\ l ∈ sweep_lengths /\ s ∈ sweep_train_sizes /\ i < 16.
Proof.
  intros Hd. destruct (sweep_results_lookup w p d Hd) as (l & s & i & Hpos & Happ).
  destruct (appended_record _ _ _ _ _ _ Happ) as (r2 & mae & Hrec).
  exists l, s, i, r2, mae.
  pose proof (sweep_grid_ranges p _ Hpos) as Hrange. simpl in Hrange.
  apply andb_true_iff in Hrange as [Hrange Hi].
  apply andb_true_iff in Hrange as [Hl Hs].
  apply bool_decide_eq_true in Hl, Hs. apply Nat.ltb_lt in Hi.
  split; [assumption|]. split; [assumption|]. subst d.
  split; [apply result_record_dom|].
  pose proof (result_record_fields l s i r2 mae). tauto.
Qed.

(** C9.  The sweep leaves the test partition and the training partition
    as they were, and so does every single iteration; both scores of every
    record compare predictions on the initial test partition with the
    targets of that same partition. *)
Theorem sweep_preserves_partitions (w : World) :
  test_data (sweep w).2 = test_data w
  /\ train_data (sweep w).2 = train_data w
  /\ (forall l s i w',
        test_data (iteration l s i w').2 = test_data w'
        /\ train_data (iteration l s i w').2 = train_data w')
  /\ (forall d, d ∈ results (sweep w).2 ->
        exists (fitted : Pipeline) y_pred r2 mae,
          Pipeline_predict fitted (col_smiles_0 (test_data w)) = Ok y_pred
          /\ r2_score (col_bandgap (test_data w)) y_pred = Ok r2
          /\ mean_absolute_error (col_bandgap (test_data w)) y_pred = Ok mae
          /\ d !! "r2_score" = Some (VFloat r2)
          /\ d !! "mae" = Some (VFloat mae)).
Proof.
  destruct (sweep_spec w) as (k & Htr & Hte & Hall & _).
  split; [assumption|]. split; [assumption|]. split.
  - intros l s i w'. destruct (iteration_cases l s i w') as (? & ? & _). auto.
  - intros d Hd. apply list_elem_of_lookup in Hd as [p Hd].
    destruct (sweep_results_lookup w p d Hd) as (l & s & i & _ & Happ).
    destruct Happ as (rs & rs' & subset & m0 & fitted & y & r2 & mae
                      & _ & _ & _ & Hpred & Hr2 & Hmae & ->).
    exists fitted, y, r2, mae. repeat split; assumption.
Qed.

End SweepTheorems.

(** ** The sweep runs to completion on well-formed tables *)

Section SweepCompletes.
Context {rd : RDKit} {ml : MLLibs} {spec : RDKitSpec rd} {total : MLLibsTotal ml}.

Lemma comprehension_ok {A B} (f : A -> result B) (P : B -> Prop) (xs : list A) :
  Forall (fun x => exists y, f x = Ok y /\ P y) xs ->
  exists ys, comprehension f xs = Ok ys /\ Forall P ys /\ length ys = length xs.
Proof.
  induction 1 as [|x xs (y & Hy & HP) _ (ys & Hys & HPs & Hlen)]; simpl.
  - exists []. auto.
  - rewrite Hy. simpl. rewrite Hys. simpl. exists (y :: ys).
    repeat split; [constructor; assumption | simpl; congruence].
Qed.

Lemma np_vstack_ok (n : nat) (tup : list ndarray) :
  tup <> [] -> Forall (fun a => length a = n) tup -> np_vstack tup = Ok tup.
Proof.
  intros Hne Hall. destruct tup as [|a rest]; [congruence|].
  simpl. inversion Hall as [|? ? Ha Hrest]; subst.
  replace (forallb _ rest) with true; [reflexivity|].
  symmetry. apply forallb_forall. intros b Hb.
  rewrite Forall_forall in Hrest. apply Nat.eqb_eq.
  apply Hrest, list_elem_of_In, Hb.
Qed.

Lemma transform_ok (self : MorganFingerprintTransformer.t) (X : list string) :
  X <> [] -> Forall parses X ->
  valid_length (MorganFingerprintTransformer.length self) ->
  exists Xt, MorganFingerprintTransformer.transform self X = Ok Xt
             /\ length Xt = length X.
Proof.
  intros Hne Hparse Hvalid. unfold MorganFingerprintTransformer.transform.
  destruct (comprehension_ok
              (fun m => compute_morgan_fingerprints m
                          (MorganFingerprintTransformer.length self)
                          (MorganFingerprintTransformer.radius self))
              (fun a => length a = MorganFingerprintTransformer.length self) X)
    as (fing & Hfing & Hlens & Hlen).
  { eapply Forall_impl; [exact Hparse|]. intros m [mol Hmol].
    destruct (compute_morgan_fingerprints_length m mol
                (MorganFingerprintTransformer.length self)
                (MorganFingerprintTransformer.radius self) Hmol Hvalid) as (arr & ? & ?).
    eauto. }
  rewrite Hfing. simpl. exists fing. split; [|assumption].
  eapply np_vstack_ok; [|exact Hlens].
  destruct fing; [|discriminate]. destruct X; [congruence|discriminate].
Qed.

Lemma col_smiles_0_subset (subset df : DataFrame float) :
  subset ⊆ df -> Forall parses (col_smiles_0 df) -> Forall parses (col_smiles_0 subset).
Proof.
  unfold col_smiles_0. rewrite !Forall_fmap, !Forall_forall.
  intros Hsub Hdf row Hrow. apply Hdf, Hsub, Hrow.
Qed.

(** On well-formed tables an iteration with a sample size between 2 and
    the number of training rows returns. *)
Lemma iteration_ok (l s i : nat) (w : World) :
  Forall parses (col_smiles_0 (train_data w)) ->
  Forall parses (col_smiles_0 (test_data w)) ->
  test_data w <> [] ->
  2 <= s <= length (train_data w) ->
  valid_length (model_length w) ->
  (iteration l s i w).1 = Ok tt.
Proof.
  intros Htrain Htest Hne [Hs2 Hs] Hvalid.
  unfold iteration, M_bind, train_data_sample, model_fit, model_predict,
    M_read, M_call, results_append.
  destruct (DataFrame_sample_ok (random_state w) (train_data w) s Hs)
    as (subset & rs' & -> & Hlen & Hsub). simpl.
  assert (Hsubparse : Forall parses (col_smiles_0 subset))
    by (eapply col_smiles_0_subset; eassumption).
  assert (Hsubne : col_smiles_0 subset <> []).
  { destruct subset; [simpl in Hlen; lia | discriminate]. }
  unfold Pipeline_fit, MorganFingerprintTransformer.fit.
  destruct (transform_ok (fingerprint (model w)) _ Hsubne Hsubparse Hvalid)
    as (Xt & -> & HXt). simpl.
  destruct (knn_fit_ok (knn (model w)) Xt (col_bandgap subset))
    as (k' & -> & Hpredict).
  { rewrite HXt. unfold col_smiles_0, col_bandgap. rewrite !length_map. reflexivity. }
  { rewrite HXt. unfold col_smiles_0. rewrite length_map. lia. }
  simpl. unfold Pipeline_predict. simpl.
  assert (Htestne : col_smiles_0 (test_data w) <> []).
  { destruct (test_data w); [congruence | discriminate]. }
  destruct (transform_ok (fingerprint (model w)) _ Htestne Htest Hvalid)
    as (Xtest & -> & HXtest). simpl.
  destruct (Hpredict Xtest) as (y_pred & -> & Hy). simpl.
  assert (Hlens : length (col_bandgap (test_data w)) = length y_pred).
  { rewrite Hy, HXtest. unfold col_smiles_0, col_bandgap. rewrite !length_map. reflexivity. }
  assert (Htruene : col_bandgap (test_data w) <> []).
  { destruct (test_data w); [congruence | discriminate]. }
  destruct (r2_score_ok _ _ Hlens Htruene) as (r2 & ->). simpl.
  destruct (mean_absolute_error_ok _ _ Hlens Htruene) as (mae & ->). simpl.
  reflexivity.
Qed.

(** A pass that raises ends the loop: the loop raises the same exception
    and stops in the state that the pass left, no later pass runs. *)
Lemma for_each_raise {A} (x : A) (xs : list A) (body : A -> M unit) w e w' :
  body x w = (Raise e, w') -> for_each (x :: xs) body w = (Raise e, w').
Proof. intros H. simpl. unfold M_bind. rewrite H. reflexivity. Qed.

(** A loop returns if every pass does, in every state that an invariant
    describes. *)
Lemma for_each_ok {A} (Inv : World -> Prop) (xs : list A) (body : A -> M unit) :
  (forall x w, x ∈ xs -> Inv w -> (body x w).1 = Ok tt /\ Inv (body x w).2) ->
  forall w, Inv w -> (for_each xs body w).1 = Ok tt /\ Inv (for_each xs body w).2.
Proof.
  induction xs as [|x xs IH]; intros Hbody w Hw; simpl.
  - auto.
  - unfold M_bind.
    destruct (Hbody x w ltac:(left) Hw) as [Hok Hinv].
    destruct (body x w) as [[[]|e] w1]; simpl in *; [|discriminate].
    apply IH; [|assumption].
    intros x' w' Hx'. apply Hbody. right. assumption.
Qed.

(** Totality of the sweep: on well-formed tables, with libraries that do
    not raise on well-formed input, the cell runs to completion. *)
Theorem sweep_completes (w : World) :
  sweep_ready (train_data w) (test_data w) -> (sweep w).1 = Ok tt.
Proof.
  intros (Htrain & Htest & Hne & Hrows).
  set (Inv := fun w' : World =>
                train_data w' = train_data w /\ test_data w' = test_data w).
  set (Inv_l := fun (l : nat) (w' : World) => Inv w' /\ model_length w' = l).
  rewrite sweep_unfold.
  apply (for_each_ok Inv); [|split; reflexivity].
  intros l w1 Hl Hw1. unfold M_bind, model_set_params. cbv beta iota.
  assert (Hvalid : valid_length l).
  { clear -Hl. unfold sweep_lengths in Hl. unfold valid_length, UINT_MAX.
    repeat (apply elem_of_cons in Hl as [->|Hl]; [lia|]).
    apply elem_of_nil in Hl. contradiction. }
  cut (let w1' := {| results := results w1;
                     model := Pipeline_set_params_fingerprint__length (model w1) l;
                     train_data := train_data w1; test_data := test_data w1;
                     random_state := random_state w1 |} in
       (for_each sweep_train_sizes
          (fun s => for_each sweep_repetitions (fun i => iteration l s i)) w1').1 = Ok tt
       /\ Inv_l l (for_each sweep_train_sizes
                     (fun s => for_each sweep_repetitions (fun i => iteration l s i))
                     w1').2).
  { intros [Hok [Hinv _]]. split; assumption. }
  cbv zeta.
  apply (for_each_ok (Inv_l l)).
  2:{ destruct Hw1. split; [split; assumption | reflexivity]. }
  intros s w2 Hs Hw2.
  apply (for_each_ok (Inv_l l)); [|assumption].
  intros i w3 _ [[Htr3 Hte3] Hlen3]. split.
  - apply iteration_ok; rewrite ?Htr3, ?Hte3, ?Hlen3; try assumption.
    assert (2 <= s <= 3000); [|lia].
    clear -Hs. unfold sweep_train_sizes in Hs.
    repeat (apply elem_of_cons in Hs as [->|Hs]; [lia|]).
    apply elem_of_nil in Hs. contradiction.
  - destruct (iteration_cases l s i w3) as (Htr & Hte & Hout).
    assert (Hok : (iteration l s i w3).1 = Ok tt).
    { apply iteration_ok; rewrite ?Htr3, ?Hte3, ?Hlen3; try assumption.
      assert (2 <= s <= 3000); [|lia].
      clear -Hs. unfold sweep_train_sizes in Hs.
      repeat (apply elem_of_cons in Hs as [->|Hs]; [lia|]).
      apply elem_of_nil in Hs. contradiction. }
    rewrite Hok in Hout. destruct Hout as [Hfp _].
    split; [split; congruence|].
    unfold model_length. rewrite Hfp. exact Hlen3.
Qed.

End SweepCompletes.

(** ** The sweep on the demonstration tables *)

Lemma demo_ml_total : MLLibsTotal demo_ml.
Proof.
  split.
  - intros rs df n Hn. simpl in *. unfold demo_sample.
    apply Nat.leb_le in Hn as Hn'. rewrite Hn'.
    exists (take n (rotate rs df)), (S rs). repeat split.
    + rewrite length_take, length_rotate. lia.
    + intros row Hrow. apply subseteq_take in Hrow.
      apply elem_of_rotate in Hrow. assumption.
  - intros k X y Hlen H2. simpl in *. unfold demo_knn_fit.
    pose proof Hlen as Hlen'. apply Nat.eqb_eq in Hlen' as ->.
    apply Nat.leb_le in H2 as H2'. rewrite H2'.
    simpl. eexists. split; [reflexivity|].
    intros Xt. unfold demo_knn_predict.
    destruct X as [|x0 [|x1 X]]; simpl in H2; try lia.
    destruct y as [|y0 [|y1 y]]; simpl in Hlen; try lia; try discriminate.
    simpl. eexists. split; [reflexivity|]. apply length_map.
  - intros y_true y_pred Hlen Hne. simpl in *. unfold demo_r2.
    apply Nat.eqb_eq in Hlen as ->.
    destruct y_true; [congruence|]. eauto.
  - intros y_true y_pred Hlen Hne. simpl in *. unfold demo_mae.
    apply Nat.eqb_eq in Hlen as ->.
    destruct y_true; [congruence|]. eauto.
Qed.

Lemma demo_row_parses (i : nat) : parses (rd := demo_rdkit) (smiles_0 (demo_row i)).
Proof.
  unfold demo_row, parses. cbn [smiles_0].
  destruct (i mod 3) as [|[|]]; vm_compute; eauto.
Qed.

Lemma demo_table_parses (n : nat) :
  Forall (parses (rd := demo_rdkit)) (col_smiles_0 (demo_table n)).
Proof.
  unfold col_smiles_0, demo_table. rewrite !Forall_fmap.
  apply Forall_forall. intros i _. apply demo_row_parses.
Qed.

Lemma demo_sweep_ready :
  sweep_ready (rd := demo_rdkit) (ml := demo_ml)
    (train_data demo_sweep_world) (test_data demo_sweep_world).
Proof.
  repeat split.
  - apply demo_table_parses.
  - apply demo_table_parses.
  - discriminate.
  - change (3000 <= length (demo_table 3000)).
    unfold demo_table. rewrite length_map, length_seq. lia.
Qed.

Lemma demo_sweep_completes : (@sweep demo_rdkit demo_ml demo_sweep_world).1 = Ok tt.
Proof.
  apply (sweep_completes (spec := demo_rdkit_spec) (total := demo_ml_total)).
  apply demo_sweep_ready.
Qed.

Lemma demo_sweep_lookup (p : nat) :
  p < 336 ->
  exists d, results (@sweep demo_rdkit demo_ml demo_sweep_world).2 !! p = Some d.
Proof.
  intros Hp. apply lookup_lt_is_Some.
  destruct (sweep_spec (rd := demo_rdkit) (ml := demo_ml) demo_sweep_world)
    as (k & _ & _ & Hall & Hout).
  rewrite demo_sweep_completes in Hout. subst k.
  apply Forall2_length in Hall. rewrite <- Hall, take_ge by lia.
  rewrite sweep_grid_length. exact Hp.
Qed.

Lemma sweep_record_count_witness :
  length (results (@sweep demo_rdkit demo_ml demo_sweep_world).2) = 336
  /\ 336 = length sweep_lengths * length sweep_train_sizes * length sweep_repetitions.
Proof.
  apply (sweep_record_count (rd := demo_rdkit) (ml := demo_ml) demo_sweep_world).
  exact demo_sweep_completes.
Defined.

Lemma sweep_records_in_loop_order_witness :
  exists dj dk pj pk,
    results (@sweep demo_rdkit demo_ml demo_sweep_world).2 !! 15 = Some dj
    /\ results (@sweep demo_rdkit demo_ml demo_sweep_world).2 !! 16 = Some dk
    /\ loop_position dj = Some pj /\ loop_position dk = Some pk /\ lex_lt pj pk.
Proof.
  destruct (demo_sweep_lookup 15 ltac:(lia)) as [dj Hj].
  destruct (demo_sweep_lookup 16 ltac:(lia)) as [dk Hk].
  destruct (sweep_records_in_loop_order (rd := demo_rdkit) (ml := demo_ml)
              demo_sweep_world 15 16 dj dk Hj Hk ltac:(lia))
    as [(pj & pk & Hpj & Hpk & Hlt) _].
  exists dj, dk, pj, pk.
  exact (conj Hj (conj Hk (conj Hpj (conj Hpk Hlt)))).
Defined.

Lemma sweep_record_fields_witness :
  exists d l s i,
    results (@sweep demo_rdkit demo_ml demo_sweep_world).2 !! 335 = Some d
    /\ sweep_grid !! 335 = Some (l, s, i)
    /\ d !! "length" = Some (VInt l)
    /\ d !! "train_size" = Some (VInt s)
    /\ d !! "iteration" = Some (VInt i)
    /\ dom d = result_keys.
Proof.
  destruct (demo_sweep_lookup 335 ltac:(lia)) as [d Hd].
  destruct (sweep_record_fields (rd := demo_rdkit) (ml := demo_ml)
              demo_sweep_world 335 d Hd)
    as (l & s & i & r2 & mae & Hpos & _ & Hdom & Hl & Hs & Hi & _).
  exists d, l, s, i.
  exact (conj Hd (conj Hpos (conj Hl (conj Hs (conj Hi Hdom))))).
Defined.

(** A training table with a row that does not parse: the second
    iteration draws that row, its fit raises, and one record is left. *)
Lemma demo_unparsable_raises :
  (@sweep demo_rdkit demo_ml demo_world_unparsable).1 = Raise ArgumentError
  /\ length (results (@sweep demo_rdkit demo_ml demo_world_unparsable).2) = 1.
Proof. split; vm_compute; reflexivity. Qed.

(** The pass with index 2 is the second iteration, [iteration 32 3 1]. *)
Lemma sweep_aborts_on_exception_witness :
  (@sweep demo_rdkit demo_ml demo_world_unparsable).1 = Raise ArgumentError
  /\ results (@sweep demo_rdkit demo_ml demo_world_unparsable).2
     = results (run_steps (take 2 (@sweep_steps demo_rdkit demo_ml))
                          (results_clear demo_world_unparsable).2).2
  /\ exists k l s i w_k,
       k < 336
       /\ sweep_grid !! k = Some (l, s, i)
       /\ length (results w_k) = k
       /\ iteration (rd := demo_rdkit) l s i w_k
          = (Raise ArgumentError, (@sweep demo_rdkit demo_ml demo_world_unparsable).2).
Proof.
  destruct (sweep_aborts_on_exception (rd := demo_rdkit) (ml := demo_ml)
              demo_world_unparsable) as [Habort Hfind].
  destruct (Habort 2 (iteration (rd := demo_rdkit) 32 3 1) ArgumentError)
    as (_ & Hraise & Hresults).
  - reflexivity.
  - vm_compute. reflexivity.
  - vm_compute. reflexivity.
  - split; [exact Hraise|]. split; [exact Hresults|].
    destruct (Hfind ArgumentError Hraise)
      as (k & l & s & i & w_k & Hk & Hpos & Hlen & _ & Hit & _).
    exists k, l, s, i, w_k.
    exact (conj Hk (conj Hpos (conj Hlen Hit))).
Defined.

Lemma sweep_preserves_partitions_witness :
  test_data (@sweep demo_rdkit demo_ml demo_sweep_world).2 = test_data demo_sweep_world
  /\ train_data (@sweep demo_rdkit demo_ml demo_sweep_world).2
     = train_data demo_sweep_world
  /\ exists d,
       results (@sweep demo_rdkit demo_ml demo_sweep_world).2 !! 0 = Some d
       /\ exists (fitted : @Pipeline demo_ml) y_pred r2 mae,
            Pipeline_predict (rd := demo_rdkit) fitted
              (col_smiles_0 (test_data demo_sweep_world)) = Ok y_pred
            /\ r2_score (col_bandgap (test_data demo_sweep_world)) y_pred = Ok r2
            /\ mean_absolute_error (col_bandgap (test_data demo_sweep_world)) y_pred
               = Ok mae
            /\ d !! "r2_score" = Some (VFloat r2)
            /\ d !! "mae" = Some (VFloat mae).
Proof.
  destruct (sweep_preserves_partitions (rd := demo_rdkit) (ml := demo_ml)
              demo_sweep_world) as (Hte & Htr & _ & Hrec).
  split; [exact Hte|]. split; [exact Htr|].
  destruct (demo_sweep_lookup 0 ltac:(lia)) as [d Hd].
  exists d. split; [exact Hd|].
  apply Hrec. eapply list_elem_of_lookup_2, Hd.
Defined.

(* ================================================================== *)
(** * 10. Feature conditioning: lemmas and theorems *)
(* ================================================================== *)

Lemma to_numeric_coerce_name (s : Series) : col_name (to_numeric_coerce s) = col_name s.
Proof. unfold to_numeric_coerce. destruct (col_dtype s); reflexivity. Qed.

Lemma coerce_cell_isnull (c : cell) : isnull c = true -> isnull (coerce_cell c) = true.
Proof. destruct c; simpl; congruence. Qed.

(** Coercion keeps a missing value missing. *)
Lemma to_numeric_coerce_keeps_missing (s : Series) :
  missing_values s = true -> missing_values (to_numeric_coerce s) = true.
Proof.
  unfold to_numeric_coerce, missing_values. intros H.
  destruct (col_dtype s); try assumption. simpl.
  apply existsb_exists in H as (c & Hc & Hnull).
  apply existsb_exists. exists (coerce_cell c). split.
  - apply in_map, Hc.
  - apply coerce_cell_isnull, Hnull.
Qed.

(** What coercion leaves in an object column: nan, or a number or an
    infinity. *)
Lemma coerce_cell_cases (c : cell) :
  coerce_cell c = NaN \/ is_number_or_inf (coerce_cell c) = true.
Proof. destruct c as [q| |n|b| |[q| |n] f]; simpl; auto. Qed.

Lemma NoDup_columns_inj (desc : Frame) (s s' : Series) :
  NoDup (columns desc) -> s ∈ desc -> s' ∈ desc -> col_name s = col_name s' -> s = s'.
Proof.
  unfold columns. induction desc as [|c desc IH]; intros Hnd Hs Hs' Hname.
  - apply elem_of_nil in Hs. contradiction.
  - simpl in Hnd. apply NoDup_cons in Hnd as [Hc Hnd].
    apply elem_of_cons in Hs as [->|Hs]; apply elem_of_cons in Hs' as [->|Hs'].
    + reflexivity.
    + exfalso. apply Hc. rewrite Hname. apply list_elem_of_fmap_2, Hs'.
    + exfalso. apply Hc. rewrite <- Hname. apply list_elem_of_fmap_2, Hs.
    + apply IH; assumption.
Qed.

Section Conditioning.
Context {pd : Pandas}.

(** What [condition] keeps: the coerced form of a column whose label is
    not among the zero-deviation labels and that has no missing value. *)
Lemma condition_kept (desc cond : Frame) (c : Series) :
  condition desc = Ok cond -> c ∈ cond ->
  exists zero s,
    zero_std_cols desc = Ok zero
    /\ s ∈ desc
    /\ (col_name s ∉ zero)
    /\ c = to_numeric_coerce s
    /\ missing_values c = false.
Proof.
  unfold condition. intros H Hc.
  apply result_bind_Ok in H as (zero & Hzero & H). inversion H; subst cond; clear H.
  unfold drop_missing in Hc. apply list_elem_of_filter in Hc as [Hmiss Hc].
  apply list_elem_of_fmap in Hc as (s & -> & Hs).
  unfold drop_columns in Hs. apply list_elem_of_filter in Hs as [Hname Hs].
  exists zero, s. repeat split; try assumption.
  destruct (missing_values (to_numeric_coerce s)); [contradiction | reflexivity].
Qed.

(** Conversely, [condition] keeps the coerced form of every column whose
    label is not among the zero-deviation labels and that has no missing
    value after the coercion. *)
Lemma condition_keeps (desc cond : Frame) (zero : list string) (s : Series) :
  condition desc = Ok cond -> zero_std_cols desc = Ok zero -> s ∈ desc ->
  col_name s ∉ zero -> missing_values (to_numeric_coerce s) = false ->
  to_numeric_coerce s ∈ cond.
Proof.
  unfold condition. intros H Hzero Hs Hname Hmiss. rewrite Hzero in H.
  inversion H; subst cond; clear H.
  unfold drop_missing. apply list_elem_of_filter. split.
  - rewrite Hmiss. exact I.
  - apply list_elem_of_fmap_2. unfold drop_columns.
    apply list_elem_of_filter. split; assumption.
Qed.

Lemma zero_std_cols_spec (desc : Frame) (zero : list string) (s : Series) :
  zero_std_cols desc = Ok zero -> s ∈ desc ->
  is_int64_or_float64 (col_dtype s) = true -> std_eq_0 s = true ->
  col_name s ∈ zero.
Proof.
  unfold zero_std_cols. intros H Hs Hdt Hstd.
  assert (Hsel : s ∈ select_dtypes_int64_float64 desc).
  { unfold select_dtypes_int64_float64. apply list_elem_of_filter.
    split; [rewrite Hdt; exact I | assumption]. }
  destruct (select_dtypes_int64_float64 desc) as [|n numeric] eqn:Hnum.
  - apply elem_of_nil in Hsel. contradiction.
  - inversion H; subst zero. unfold columns.
    apply list_elem_of_fmap_2. apply list_elem_of_filter.
    split; [rewrite Hstd; exact I | assumption].
Qed.

(** The zero-deviation labels are labels of int64 or float64 columns whose
    computed deviation compares equal to 0. *)
Lemma zero_std_cols_inv (desc : Frame) (zero : list string) (col : string) :
  zero_std_cols desc = Ok zero -> col ∈ zero ->
  exists s, s ∈ desc /\ col_name s = col
            /\ is_int64_or_float64 (col_dtype s) = true
            /\ std_eq_0 s = true.
Proof.
  unfold zero_std_cols. intros H Hcol.
  destruct (select_dtypes_int64_float64 desc) as [|n numeric] eqn:Hnum; [discriminate|].
  inversion H; subst zero; clear H. unfold columns in Hcol.
  apply list_elem_of_fmap in Hcol as (s & -> & Hs).
  apply list_elem_of_filter in Hs as [Hstd Hs].
  rewrite <- Hnum in Hs. unfold select_dtypes_int64_float64 in Hs.
  apply list_elem_of_filter in Hs as [Hdt Hs].
  exists s. repeat split; try assumption; apply Is_true_true; assumption.
Qed.

(** C4 (amended).  After [condition], every int64 or float64 column whose
    standard deviation, as [describe()] computes it in float64, compares
    equal to 0 in the raw table, and every column that contains a missing
    value, is absent from the conditioned table. *)
Theorem condition_drops_zero_std_and_missing (desc cond : Frame) (s : Series) :
  NoDup (columns desc) ->
  condition desc = Ok cond ->
  s ∈ desc ->
  (is_int64_or_float64 (col_dtype s) = true /\ std_eq_0 s = true)
  \/ missing_values s = true ->
  col_name s ∉ columns cond.
Proof.
  intros Hnd Hcond Hs Hcase Hin.
  unfold columns in Hin. apply list_elem_of_fmap in Hin as (c & Hname & Hc).
  destruct (condition_kept desc cond c Hcond Hc)
    as (zero & s' & Hzero & Hs' & Hnz & -> & Hmiss).
  rewrite to_numeric_coerce_name in Hname.
  assert (s = s') by (eapply NoDup_columns_inj; eassumption). subst s'.
  destruct Hcase as [[Hdt Hstd]|Hraw].
  - apply Hnz. eapply zero_std_cols_spec; eassumption.
  - apply to_numeric_coerce_keeps_missing in Hraw. congruence.
Qed.

End Conditioning.

Lemma demo_desc_NoDup : NoDup (columns demo_desc).
Proof. apply (bool_decide_unpack _). vm_compute. exact I. Qed.

Lemma demo_desc_condition :
  condition (pd := float64_pandas) demo_desc = Ok [demo_col_a; demo_col_b].
Proof. vm_compute. reflexivity. Qed.

Lemma float64_pandas_spec : PandasSpec float64_pandas.
Proof.
  split. intros vs. simpl. unfold Float64.std.
  destruct (length (omap Float64.of_cell vs) <=? 1)%nat eqn:Hcount.
  { vm_compute. discriminate. }
  intros _. apply Nat.leb_gt in Hcount.
  assert (Hle : length (omap Float64.of_cell vs) <= describe_count vs).
  { clear. unfold describe_count. induction vs as [|c vs IH]; [reflexivity|].
    rewrite filter_cons. destruct c; csimpl; simpl; lia. }
  lia.
Qed.

Lemma condition_drops_zero_std_and_missing_witness :
  (col_name demo_col_c ∉ columns [demo_col_a; demo_col_b])
  /\ (col_name demo_col_m ∉ columns [demo_col_a; demo_col_b]).
Proof.
  split.
  - apply (condition_drops_zero_std_and_missing (pd := float64_pandas) demo_desc).
    + exact demo_desc_NoDup.
    + exact demo_desc_condition.
    + unfold demo_desc. repeat constructor.
    + left. split; vm_compute; reflexivity.
  - apply (condition_drops_zero_std_and_missing (pd := float64_pandas) demo_desc).
    + exact demo_desc_NoDup.
    + exact demo_desc_condition.
    + unfold demo_desc. repeat constructor.
    + right. vm_compute. reflexivity.
Defined.

(** C4 as stated fails, in two ways.  The constant bool column of
    [demo_desc] is kept whatever the deviations are, because only int64 and
    float64 columns are examined.  And the constant float64 column 0.1,
    0.1, 0.1 of [demo_desc_rounding] is kept, because its deviation in
    binary64 is 1.6996749443881478e-17, not 0. *)
Lemma condition_keeps_constant_columns :
  (constant_column demo_col_b
   /\ demo_col_b ∈ demo_desc
   /\ (forall (pd : Pandas) cond,
         condition demo_desc = Ok cond -> col_name demo_col_b ∈ columns cond)
   /\ condition (pd := float64_pandas) demo_desc = Ok [demo_col_a; demo_col_b])
  /\ (constant_column demo_col_t
      /\ demo_col_t ∈ demo_desc_rounding
      /\ Float64.std (col_values demo_col_t) = Float64Values.std_of_tenths
      /\ std_eq_0 (pd := float64_pandas) demo_col_t = false
      /\ condition (pd := float64_pandas) demo_desc_rounding = Ok [demo_col_t]
      /\ col_name demo_col_t ∈ columns [demo_col_t]).
Proof.
  split.
  - split.
    { split; [simpl; lia|]. exists 1%Q. repeat constructor. }
    split; [unfold demo_desc; repeat constructor|].
    split; [|exact demo_desc_condition].
    intros pd cond Hcond.
    assert (Hb : to_numeric_coerce demo_col_b ∈ cond).
    { destruct (zero_std_cols demo_desc) as [zero|e] eqn:Hzero.
      2:{ unfold condition in Hcond. rewrite Hzero in Hcond. discriminate. }
      apply (condition_keeps demo_desc cond zero demo_col_b Hcond Hzero).
      - unfold demo_desc. repeat constructor.
      - intros Hin.
        destruct (zero_std_cols_inv demo_desc zero _ Hzero Hin)
          as (s & Hs & Hname & Hdt & _).
        assert (s = demo_col_b).
        { eapply NoDup_columns_inj; [exact demo_desc_NoDup | exact Hs | | exact Hname].
          unfold demo_desc. repeat constructor. }
        subst s. discriminate Hdt.
      - reflexivity. }
    unfold columns. apply list_elem_of_fmap. exists (to_numeric_coerce demo_col_b).
    split; [reflexivity | exact Hb].
  - split.
    { split; [simpl; lia|]. exists (1 # 10)%Q. repeat constructor. }
    split; [unfold demo_desc_rounding; repeat constructor|].
    split; [vm_compute; reflexivity|].
    split; [vm_compute; reflexivity|].
    split; [vm_compute; reflexivity|].
    unfold columns. simpl. repeat constructor.
Qed.

(** The opposite rounding: the int64 column 2^53, 2^53 + 1 is not
    constant, yet both entries round to the same binary64 value, its
    computed deviation is 0 and [condition] drops it. *)
Lemma condition_drops_column_that_is_not_constant :
  ~ constant_column demo_col_p
  /\ std_eq_0 (pd := float64_pandas) demo_col_p = true
  /\ (col_name demo_col_p ∉ columns [demo_col_t])
  /\ condition (pd := float64_pandas) demo_desc_rounding = Ok [demo_col_t].
Proof.
  split.
  { intros [_ [q Hall]]. unfold demo_col_p in Hall. simpl in Hall.
    inversion Hall as [|? ? H1 Hrest]; subst.
    inversion Hrest as [|? ? H2 _]; subst.
    simpl in H1, H2. congruence. }
  split; [vm_compute; reflexivity|].
  split; [|vm_compute; reflexivity].
  apply (bool_decide_unpack _). vm_compute. exact I.
Qed.

Section ParseFailures.
Context {rd : RDKit} {md : Mordred rd} {pd : Pandas}.


End ParseFailures.

Lemma demo_mordred_spec : MordredSpec demo_mordred.
Proof.
  split. intros mols Hnone. simpl. unfold demo_calc_pandas.
  replace (forallb _ mols) with false; [reflexivity|].
  symmetry. apply not_true_is_false. intros Hall.
  rewrite forallb_forall in Hall.
  specialize (Hall None (proj1 (list_elem_of_In _ _) Hnone)).
  discriminate Hall.
Qed.



(* ================================================================== *)
(** * 11. Standardization: lemmas and theorems *)
(* ================================================================== *)

Section Standardization.
Local Open Scope R_scope.

Lemma Rsum_shift (xs : list R) (c : R) :
  Rsum (map (fun x => x - c) xs) = Rsum xs - INR (length xs) * c.
Proof.
  induction xs as [|x xs IH].
  - simpl. lra.
  - change (length (x :: xs)) with (S (length xs)). rewrite S_INR.
    simpl. rewrite IH. lra.
Qed.

Lemma Rsum_scale (xs : list R) (c : R) :
  Rsum (map (fun x => x * c) xs) = Rsum xs * c.
Proof. induction xs as [|x xs IH]; simpl; [lra | rewrite IH; lra]. Qed.

Lemma Rsum_squares_nonneg (xs : list R) (c : R) :
  0 <= Rsum (map (fun x => (x - c) * (x - c)) xs).
Proof.
  induction xs as [|x xs IH]; simpl; [lra|].
  pose proof (Rle_0_sqr (x - c)) as H. unfold Rsqr in H. lra.
Qed.

Lemma Rsum_squares_zero (xs : list R) (c : R) :
  Rsum (map (fun x => (x - c) * (x - c)) xs) = 0 -> Forall (fun x => x = c) xs.
Proof.
  induction xs as [|x xs IH]; simpl; intros H; constructor.
  - pose proof (Rsum_squares_nonneg xs c) as Hrest.
    pose proof (Rle_0_sqr (x - c)) as Hsq. unfold Rsqr in Hsq.
    assert (Hz : (x - c) * (x - c) = 0) by lra.
    apply Rmult_integral in Hz. lra.
  - apply IH.
    pose proof (Rsum_squares_nonneg xs c) as Hrest.
    pose proof (Rle_0_sqr (x - c)) as Hsq. unfold Rsqr in Hsq. lra.
Qed.

Lemma INR_length_pos {A} (xs : list A) : xs <> [] -> 0 < INR (length xs).
Proof.
  destruct xs; [congruence|]. intros _.
  change (length (a :: xs)) with (S (length xs)). apply lt_0_INR. lia.
Qed.

Lemma np_var_unfold (xs : list R) :
  np_var xs
  = Rsum (map (fun x => (x - np_mean xs) * (x - np_mean xs)) xs) * / INR (length xs).
Proof. unfold np_var, np_mean at 1. rewrite length_map. reflexivity. Qed.

Lemma np_var_nonneg (xs : list R) : xs <> [] -> 0 <= np_var xs.
Proof.
  intros Hne. rewrite np_var_unfold.
  apply Rmult_le_pos; [apply Rsum_squares_nonneg|].
  left. apply Rinv_0_lt_compat, INR_length_pos, Hne.
Qed.

(** A column has variance zero exactly when it is constant. *)
Lemma np_var_zero_iff_constant (xs : list R) :
  xs <> [] -> (np_var xs = 0 <-> exists c, Forall (fun x => x = c) xs).
Proof.
  intros Hne. pose proof (INR_length_pos xs Hne) as Hn. split.
  - intros Hvar. exists (np_mean xs). apply Rsum_squares_zero.
    rewrite np_var_unfold in Hvar.
    apply Rmult_integral in Hvar as [H|H]; [assumption|].
    exfalso. apply (Rinv_neq_0_compat (INR (length xs))); lra.
  - intros [c Hall].
    assert (Hsum : Rsum xs = INR (length xs) * c).
    { clear Hne Hn. induction Hall as [|x xs -> _ IH].
      - simpl. lra.
      - change (length (c :: xs)) with (S (length xs)). rewrite S_INR.
        simpl. rewrite IH. lra. }
    assert (Hmean : np_mean xs = c).
    { unfold np_mean. rewrite Hsum. field. lra. }
    rewrite np_var_unfold, Hmean.
    replace (Rsum (map (fun x => (x - c) * (x - c)) xs)) with 0; [field; lra|].
    clear -Hall. induction Hall as [|x xs -> _ IH]; simpl; [reflexivity|].
    rewrite <- IH. lra.
Qed.

Lemma transform_fit (X : list (list R)) :
  StandardScaler.transform (StandardScaler.fit X) X = map standardize X.
Proof.
  unfold StandardScaler.transform, StandardScaler.fit. simpl.
  induction X as [|x X IH]; simpl; [reflexivity|].
  f_equal. exact IH.
Qed.

Lemma float64_eps_pos : 0 < float64_eps.
Proof. unfold float64_eps. apply Rinv_0_lt_compat, pow_lt. lra. Qed.

Lemma is_constant_feature_true (var mean : R) (n : nat) :
  is_constant_feature var mean n = true
  <-> var <= INR n * float64_eps * var + (INR n * mean * float64_eps) ^ 2.
Proof.
  unfold is_constant_feature.
  destruct (Rle_dec var (INR n * float64_eps * var + (INR n * mean * float64_eps) ^ 2));
    split; intros H; try assumption; try reflexivity; try discriminate; contradiction.
Qed.

(** The bound of the constant-feature test is never negative, so that a
    variance of zero is always within it. *)
Lemma constant_feature_bound_nonneg (var mean : R) (n : nat) :
  0 <= var -> 0 <= INR n * float64_eps * var + (INR n * mean * float64_eps) ^ 2.
Proof.
  intros Hvar. pose proof float64_eps_pos as Heps. pose proof (pos_INR n) as Hn.
  apply Rplus_le_le_0_compat.
  - apply Rmult_le_pos; [apply Rmult_le_pos; lra | exact Hvar].
  - apply pow2_ge_0.
Qed.

Lemma not_constant_feature_var_pos (x : list R) :
  x <> [] ->
  is_constant_feature (np_var x) (np_mean x) (length x) = false ->
  0 < np_var x.
Proof.
  intros Hne Hmask. pose proof (np_var_nonneg x Hne) as Hvar.
  destruct (Rle_lt_or_eq_dec _ _ Hvar) as [Hlt|Heq]; [exact Hlt|].
  exfalso.
  assert (Htrue : is_constant_feature (np_var x) (np_mean x) (length x) = true).
  { apply is_constant_feature_true. rewrite <- Heq.
    apply constant_feature_bound_nonneg. lra. }
  congruence.
Qed.

Lemma transform_column_mean (x : list R) (scale : R) :
  x <> [] -> scale <> 0 ->
  np_mean (StandardScaler.transform_column x (np_mean x) scale) = 0.
Proof.
  intros Hne Hscale. pose proof (INR_length_pos x Hne) as Hn.
  unfold StandardScaler.transform_column, np_mean at 1. rewrite length_map.
  replace (map (fun v => (v - np_mean x) / scale) x)
    with (map (fun v => v * / scale) (map (fun v => v - np_mean x) x)).
  2:{ rewrite map_map. reflexivity. }
  rewrite Rsum_scale, Rsum_shift. unfold np_mean. field. lra.
Qed.

Lemma transform_column_var (x : list R) (scale : R) :
  x <> [] -> scale <> 0 ->
  np_var (StandardScaler.transform_column x (np_mean x) scale)
  = np_var x / (scale * scale).
Proof.
  intros Hne Hscale. pose proof (INR_length_pos x Hne) as Hn.
  rewrite np_var_unfold, (transform_column_mean x scale Hne Hscale).
  unfold StandardScaler.transform_column.
  rewrite !length_map, map_map.
  replace (map (fun v => ((v - np_mean x) / scale - 0) * ((v - np_mean x) / scale - 0)) x)
    with (map (fun v => v * / (scale * scale))
              (map (fun v => (v - np_mean x) * (v - np_mean x)) x)).
  2:{ rewrite map_map. apply map_ext. intros v. field. assumption. }
  rewrite Rsum_scale, (np_var_unfold x).
  field. split; lra.
Qed.

(** One standardized column.  Its mean is 0.  If scikit-learn's test does
    not flag the column as constant, it is divided by its standard
    deviation and comes out with standard deviation 1.  If the test flags
    it, it is centred only and keeps the standard deviation it had. *)
Lemma standardize_column (x : list R) :
  x <> [] ->
  np_mean (standardize x) = 0
  /\ (is_constant_feature (np_var x) (np_mean x) (length x) = false ->
      np_std (standardize x) = 1)
  /\ (is_constant_feature (np_var x) (np_mean x) (length x) = true ->
      standardize x = map (fun v => v - np_mean x) x
      /\ np_std (standardize x) = np_std x).
Proof.
  intros Hne. unfold standardize.
  destruct (is_constant_feature (np_var x) (np_mean x) (length x)) eqn:Hmask;
    unfold handle_zeros_in_scale.
  - assert (H1 : (1 : R) <> 0) by lra.
    split; [apply transform_column_mean; assumption|].
    split; [discriminate|]. intros _. split.
    + unfold StandardScaler.transform_column. apply map_ext. intros v. field.
    + unfold np_std. rewrite (transform_column_var x 1 Hne H1).
      f_equal. field.
  - pose proof (not_constant_feature_var_pos x Hne Hmask) as Hvar.
    assert (Hscale : sqrt (np_var x) <> 0).
    { pose proof (sqrt_lt_R0 _ Hvar). lra. }
    split; [apply transform_column_mean; assumption|].
    split; [|discriminate]. intros _.
    unfold np_std. rewrite (transform_column_var x _ Hne Hscale).
    rewrite sqrt_sqrt by lra.
    replace (np_var x / np_var x) with 1 by (field; lra).
    apply sqrt_1.
Qed.

(** A constant column is flagged as constant, and standardization maps
    it to zeros. *)
Lemma standardize_constant (x : list R) :
  x <> [] -> (exists c, Forall (fun v => v = c) x) ->
  is_constant_feature (np_var x) (np_mean x) (length x) = true
  /\ np_std (standardize x) = 0
  /\ Forall (fun v => v = 0) (standardize x).
Proof.
  intros Hne Hconst.
  pose proof (proj2 (np_var_zero_iff_constant x Hne) Hconst) as Hvar.
  assert (Hmask : is_constant_feature (np_var x) (np_mean x) (length x) = true).
  { apply is_constant_feature_true. rewrite Hvar at 1.
    apply constant_feature_bound_nonneg. lra. }
  destruct (standardize_column x Hne) as (_ & _ & Hflag).
  destruct (Hflag Hmask) as [Hz Hstd].
  split; [exact Hmask|]. split.
  - rewrite Hstd. unfold np_std. rewrite Hvar. apply sqrt_0.
  - rewrite Hz. destruct Hconst as [c Hall].
    assert (Hmean : np_mean x = c).
    { pose proof (INR_length_pos x Hne) as Hn.
      assert (Hsum : Rsum x = INR (length x) * c).
      { clear Hne Hn Hvar Hmask Hflag Hz Hstd. induction Hall as [|v x -> _ IH].
        - simpl. lra.
        - change (length (c :: x)) with (S (length x)). rewrite S_INR.
          simpl. rewrite IH. lra. }
      unfold np_mean. rewrite Hsum. field. lra. }
    rewrite Hmean. apply Forall_map. eapply Forall_impl; [exact Hall|].
    intros v ->. simpl. lra.
Qed.

(** C7 (amended).  After [fit_transform] every feature column has mean 0.
    A column that scikit-learn's constant-feature test does not flag has
    standard deviation 1.  A column that the test flags is centred and not
    scaled: it keeps the standard deviation it had.  Every constant column
    is flagged; it is mapped to zeros and has standard deviation 0. *)
Theorem standardized_columns
    (X Z : list (list R)) (j : nat) (x z : list R) :
  StandardScaler.fit_transform X = Ok Z ->
  X !! j = Some x ->
  Z !! j = Some z ->
  x <> [] ->
  np_mean z = 0
  /\ (is_constant_feature (np_var x) (np_mean x) (length x) = false -> np_std z = 1)
  /\ (is_constant_feature (np_var x) (np_mean x) (length x) = true ->
      z = map (fun v => v - np_mean x) x /\ np_std z = np_std x)
  /\ ((exists c, Forall (fun v => v = c) x) ->
      is_constant_feature (np_var x) (np_mean x) (length x) = true
      /\ np_std z = 0 /\ Forall (fun v => v = 0) z).
Proof.
  intros Hfit Hx Hz Hne.
  assert (HZ : Z = map standardize X).
  { unfold StandardScaler.fit_transform in Hfit.
    destruct X as [|x0 X0]; [discriminate|].
    destruct x0; [discriminate|].
    inversion Hfit. apply transform_fit. }
  subst Z. change (map standardize X) with (standardize <$> X) in Hz.
  rewrite list_lookup_fmap, Hx in Hz. simpl in Hz. inversion Hz; subst z.
  destruct (standardize_column x Hne) as (Hmean & Hunit & Hflag).
  split; [assumption|]. split; [assumption|]. split; [assumption|].
  intros Hc. apply standardize_constant; assumption.
Qed.

(** Mean and variance of a column of three entries. *)
Lemma np_stats_3 (a b c : R) :
  np_mean [a; b; c] = (a + b + c) / 3
  /\ np_var [a; b; c]
     = ((a - (a + b + c) / 3) ^ 2 + (b - (a + b + c) / 3) ^ 2
        + (c - (a + b + c) / 3) ^ 2) / 3.
Proof.
  assert (Hmean : np_mean [a; b; c] = (a + b + c) / 3).
  { unfold np_mean. simpl. field. }
  split; [exact Hmean|].
  rewrite np_var_unfold, Hmean. simpl. field.
Qed.

Lemma float64_eps_value : float64_eps = / 4503599627370496.
Proof. unfold float64_eps. f_equal. simpl. lra. Qed.

End Standardization.

Lemma demo_column_not_flagged :
  is_constant_feature (np_var [1; 2; 4]%R) (np_mean [1; 2; 4]%R) 3 = false.
Proof.
  apply not_true_is_false. intros Hflag.
  apply is_constant_feature_true in Hflag.
  destruct (np_stats_3 1 2 4) as [Hmean Hvar].
  rewrite Hmean, Hvar, float64_eps_value in Hflag. simpl in Hflag. lra.
Qed.

Lemma standardized_columns_witness :
  np_mean (standardize [1; 2; 4]%R) = 0%R
  /\ np_std (standardize [1; 2; 4]%R) = 1%R.
Proof.
  destruct (standardized_columns demo_matrix
              (StandardScaler.transform (StandardScaler.fit demo_matrix) demo_matrix)
              0 [1; 2; 4]%R (standardize [1; 2; 4]%R))
    as (Hmean & Hunit & _).
  - reflexivity.
  - reflexivity.
  - reflexivity.
  - discriminate.
  - exact (conj Hmean (Hunit demo_column_not_flagged)).
Defined.

(** C7 as stated fails, in both sections and in two ways.  A constant
    column reaches the scaler: cells 21 to 25 keep the constant bool column
    of [demo_desc], cells 76 to 79 keep the constant float column of
    [demo_desc_assignment]; after standardization either column has
    standard deviation 0, not 1.  And a column that is not constant but
    nearly so, 1e8, 1e8 + 1e-7, 1e8, is flagged by scikit-learn's test and
    left unscaled: it keeps its own standard deviation, far below 1. *)
Lemma standardized_columns_without_unit_deviation :
  (condition (pd := float64_pandas) demo_desc = Ok [demo_col_a; demo_col_b]
   /\ check_array [demo_col_a; demo_col_b] = Ok [demo_col_a; demo_col_b]
   /\ to_matrix [demo_col_a; demo_col_b]
      = Some [[Q2R 1; Q2R 2; Q2R 4]; [Q2R 1; Q2R 1; Q2R 1]]
   /\ StandardScaler.fit_transform [[Q2R 1; Q2R 2; Q2R 4]; [Q2R 1; Q2R 1; Q2R 1]]
      = Ok [standardize [Q2R 1; Q2R 2; Q2R 4]; standardize [Q2R 1; Q2R 1; Q2R 1]]
   /\ np_std (standardize [Q2R 1; Q2R 1; Q2R 1]) = 0%R
   /\ np_std (standardize [Q2R 1; Q2R 1; Q2R 1]) <> 1%R)
  /\ (condition_assignment demo_desc_assignment = Ok demo_desc_assignment
      /\ check_array demo_desc_assignment = Ok demo_desc_assignment
      /\ to_matrix demo_desc_assignment
         = Some [[Q2R 1; Q2R 2; Q2R 4]; [Q2R 5; Q2R 5; Q2R 5]]
      /\ StandardScaler.fit_transform [[Q2R 1; Q2R 2; Q2R 4]; [Q2R 5; Q2R 5; Q2R 5]]
         = Ok [standardize [Q2R 1; Q2R 2; Q2R 4]; standardize [Q2R 5; Q2R 5; Q2R 5]]
      /\ np_std (standardize [Q2R 5; Q2R 5; Q2R 5]) = 0%R
      /\ np_std (standardize [Q2R 5; Q2R 5; Q2R 5]) <> 1%R)
  /\ (~ (exists c, Forall (fun v => v = c) demo_near_constant)
      /\ is_constant_feature (np_var demo_near_constant) (np_mean demo_near_constant) 3
         = true
      /\ StandardScaler.fit_transform [demo_near_constant]
         = Ok [standardize demo_near_constant]
      /\ np_std (standardize demo_near_constant) = np_std demo_near_constant
      /\ np_std (standardize demo_near_constant) <> 1%R).
Proof.
  assert (Hconst : forall q : Q, np_std (standardize [Q2R q; Q2R q; Q2R q]) = 0%R).
  { intros q. apply standardize_constant; [discriminate|].
    exists (Q2R q). repeat constructor. }
  split; [|split].
  - split; [exact demo_desc_condition|].
    split; [reflexivity|]. split; [reflexivity|]. split; [reflexivity|].
    split; [apply Hconst|]. rewrite Hconst. lra.
  - split; [vm_compute; reflexivity|].
    split; [reflexivity|]. split; [reflexivity|]. split; [reflexivity|].
    split; [apply Hconst|]. rewrite Hconst. lra.
  - unfold demo_near_constant.
    destruct (np_stats_3 100000000 (100000000 + / 10000000) 100000000)%R
      as [Hmean Hvar].
    assert (Hflag : is_constant_feature
                      (np_var [100000000; 100000000 + / 10000000; 100000000]%R)
                      (np_mean [100000000; 100000000 + / 10000000; 100000000]%R) 3
                    = true).
    { apply is_constant_feature_true.
      rewrite Hmean, Hvar, float64_eps_value. simpl. lra. }
    destruct (standardize_column [100000000; 100000000 + / 10000000; 100000000]%R)
      as (_ & _ & Hkeep); [discriminate|].
    destruct (Hkeep Hflag) as [_ Hstd].
    split.
    { intros [c Hall].
      inversion Hall as [|? ? H1 Hrest]; subst.
      inversion Hrest as [|? ? H2 _]; subst. lra. }
    split; [exact Hflag|]. split; [reflexivity|]. split; [exact Hstd|].
    rewrite Hstd. unfold np_std. intros Hone.
    assert (Hsq : (sqrt (np_var [100000000; 100000000 + / 10000000; 100000000])
                   * sqrt (np_var [100000000; 100000000 + / 10000000; 100000000])
                   = 1)%R) by (rewrite Hone; lra).
    rewrite sqrt_sqrt in Hsq.
    + rewrite Hvar in Hsq. simpl in Hsq. lra.
    + apply np_var_nonneg. discriminate.
Qed.

(* ================================================================== *)
(** * 12. Further properties of the fingerprint functions *)
(* ================================================================== *)

Section FingerprintProperties.
Context {rd : RDKit}.

Lemma compute_morgan_fingerprints_Ok_inv (smiles : string) (l r : nat) (arr : ndarray) :
  compute_morgan_fingerprints smiles l r = Ok arr ->
  exists mol, MolFromSmiles smiles = Some mol
              /\ valid_length l
              /\ arr = GetMorganFingerprintAsBitVect mol r l.
Proof.
  intros H. destruct (MolFromSmiles smiles) as [mol|] eqn:Hparse.
  - destruct (compute_morgan_fingerprints_bad_length smiles mol l r Hparse)
      as [Hzero Hover].
    assert (Hvalid : valid_length l).
    { unfold valid_length. split.
      - destruct l; [|lia]. rewrite Hzero in H by reflexivity. discriminate.
      - destruct (Z.le_gt_cases (Z.of_nat l) UINT_MAX) as [Hle|Hgt]; [exact Hle|].
        rewrite Hover in H by lia. discriminate. }
    exists mol. split; [reflexivity|]. split; [exact Hvalid|].
    rewrite (compute_morgan_fingerprints_parsed smiles mol l r Hparse Hvalid) in H.
    inversion H. reflexivity.
  - destruct (compute_morgan_fingerprints_unparsed smiles l r Hparse) as [Hraise _].
    congruence.
Qed.

(** X1.  For a radius of at most 2^31 - 1,
    [compute_morgan_fingerprints] returns an array exactly when the string
    parses and the length is at least 1 and at most [UINT_MAX]; the array
    then holds the bits of the toolkit's fingerprint for the requested
    radius and length, nothing else: the one-element zero array that the
    function starts from leaves no trace.  Otherwise it raises:
    [ArgumentError] on a string that does not parse, whatever the length;
    on a string that parses, [ValueError] for the length 0 and
    [OverflowError] for a length above [UINT_MAX]. *)
Theorem compute_morgan_fingerprints_returns_fingerprint_bits
    (smiles : string) (l r : nat) :
  valid_radius r ->
  (forall arr,
     compute_morgan_fingerprints smiles l r = Ok arr
     <-> exists mol, MolFromSmiles smiles = Some mol
                     /\ valid_length l
                     /\ arr = GetMorganFingerprintAsBitVect mol r l)
  /\ (MolFromSmiles smiles = None ->
      compute_morgan_fingerprints smiles l r = Raise ArgumentError)
  /\ (parses smiles -> l = 0 ->
      compute_morgan_fingerprints smiles l r = Raise ValueError)
  /\ (parses smiles -> (UINT_MAX < Z.of_nat l)%Z ->
      compute_morgan_fingerprints smiles l r = Raise (OtherError "OverflowError")).
Proof.
  intros _. split; [|split; [|split]].
  - intros arr. split.
    + apply compute_morgan_fingerprints_Ok_inv.
    + intros (mol & Hparse & Hvalid & ->).
      apply compute_morgan_fingerprints_parsed; assumption.
  - intros Hparse. apply compute_morgan_fingerprints_unparsed, Hparse.
  - intros [mol Hparse] Hl.
    apply (compute_morgan_fingerprints_bad_length smiles mol l r Hparse), Hl.
  - intros [mol Hparse] Hl.
    apply (compute_morgan_fingerprints_bad_length smiles mol l r Hparse), Hl.
Qed.

(** A comprehension raises what its first failing element raises. *)
Lemma comprehension_first_raise {A B} (f : A -> result B)
    (pre : list A) (x : A) (post : list A) (e : exn) :
  Forall (fun a => exists b, f a = Ok b) pre -> f x = Raise e ->
  comprehension f (pre ++ x :: post) = Raise e.
Proof.
  intros Hpre Hx. induction Hpre as [|a pre [b Hb] _ IH]; simpl.
  - rewrite Hx. reflexivity.
  - rewrite Hb. simpl. rewrite IH. reflexivity.
Qed.

(** X2.  For a radius of at most 2^31 - 1, [transform]
    returns a matrix exactly when its list of strings is not empty, every
    string parses and [self.length] is at least 1 and at most [UINT_MAX].
    The matrix has one row per string, in order, each row is the
    fingerprint of its string, and every row has [self.length] entries. *)
Theorem transform_returns_one_row_per_string
    {spec : RDKitSpec rd} (self : MorganFingerprintTransformer.t) (X : list string) :
  valid_radius (MorganFingerprintTransformer.radius self) ->
  ((exists Xt, MorganFingerprintTransformer.transform self X = Ok Xt)
   <-> X <> [] /\ Forall parses X
       /\ valid_length (MorganFingerprintTransformer.length self))
  /\ (forall Xt,
        MorganFingerprintTransformer.transform self X = Ok Xt ->
        length Xt = length X
        /\ Forall2 (fun m row =>
                      compute_morgan_fingerprints m
                        (MorganFingerprintTransformer.length self)
                        (MorganFingerprintTransformer.radius self) = Ok row)
                   X Xt
        /\ Forall (fun row => length row = MorganFingerprintTransformer.length self) Xt).
Proof.
  intros _.
  assert (Hinv : forall Xt,
             MorganFingerprintTransformer.transform self X = Ok Xt ->
             X <> []
             /\ Forall2 (fun m row =>
                           compute_morgan_fingerprints m
                             (MorganFingerprintTransformer.length self)
                             (MorganFingerprintTransformer.radius self) = Ok row)
                        X Xt).
  { intros Xt H. unfold MorganFingerprintTransformer.transform in H.
    apply result_bind_Ok in H as (fing & Hfing & Hstack).
    apply comprehension_Ok_inv in Hfing.
    assert (fing = Xt /\ fing <> []) as [-> Hne].
    { unfold np_vstack in Hstack. destruct fing as [|a rest]; [discriminate|].
      destruct (forallb (fun b : list bool => (length b =? length a)%nat) rest);
        inversion Hstack. split; [reflexivity | discriminate]. }
    split; [|assumption].
    intros ->. inversion Hfing. subst. congruence. }
  split.
  - split.
    + intros [Xt H]. destruct (Hinv Xt H) as [Hne Hrows]. split; [assumption|].
      split.
      * apply Forall_forall. intros m Hm.
        apply list_elem_of_lookup in Hm as [i Hi].
        destruct (Forall2_lookup_l _ _ _ _ _ Hrows Hi) as (row & _ & Hrow).
        apply compute_morgan_fingerprints_Ok_inv in Hrow as (mol & Hmol & _).
        exists mol. exact Hmol.
      * destruct X as [|m X']; [congruence|].
        inversion Hrows as [|? row ? ? Hrow _]; subst.
        apply compute_morgan_fingerprints_Ok_inv in Hrow as (_ & _ & Hvalid & _).
        exact Hvalid.
    + intros (Hne & Hparse & Hvalid).
      destruct (transform_ok self X Hne Hparse Hvalid) as (Xt & H & _).
      exists Xt. exact H.
  - intros Xt H. destruct (Hinv Xt H) as [_ Hrows].
    split; [symmetry; eapply Forall2_length, Hrows|]. split; [assumption|].
    apply Forall_forall. intros row Hrow.
    apply list_elem_of_lookup in Hrow as [i Hi].
    destruct (Forall2_lookup_r _ _ _ _ _ Hrows Hi) as (m & _ & Hm).
    apply compute_morgan_fingerprints_Ok_inv in Hm as (mol & _ & _ & ->).
    apply GetMorganFingerprintAsBitVect_numbits.
Qed.

(** X3.  For a radius of at most 2^31 - 1: [transform] on
    the empty list raises [ValueError] (there is nothing to stack).  On a
    list in which some string fails, it raises what the first failing
    string raises, and no partial matrix is returned: with a length that
    the toolkit accepts that is [ArgumentError] as soon as one string does
    not parse, whatever the other strings are; with the length 0 it is
    [ValueError] from a first string that parses, also when a later string
    does not. *)
Theorem transform_raises
    (self : MorganFingerprintTransformer.t) (X : list string) :
  valid_radius (MorganFingerprintTransformer.radius self) ->
  (X = [] -> MorganFingerprintTransformer.transform self X = Raise ValueError)
  /\ (forall pre m post e,
        X = pre ++ m :: post ->
        Forall (fun m' => exists row,
                  compute_morgan_fingerprints m'
                    (MorganFingerprintTransformer.length self)
                    (MorganFingerprintTransformer.radius self) = Ok row) pre ->
        compute_morgan_fingerprints m
          (MorganFingerprintTransformer.length self)
          (MorganFingerprintTransformer.radius self) = Raise e ->
        MorganFingerprintTransformer.transform self X = Raise e)
  /\ (valid_length (MorganFingerprintTransformer.length self) ->
      Exists (fun m => MolFromSmiles m = None) X ->
      MorganFingerprintTransformer.transform self X = Raise ArgumentError)
  /\ (MorganFingerprintTransformer.length self = 0 ->
      forall m X', X = m :: X' -> parses m ->
      MorganFingerprintTransformer.transform self X = Raise ValueError).
Proof.
  intros _.
  assert (Hfirst : forall pre m post e,
            X = pre ++ m :: post ->
            Forall (fun m' => exists row,
                      compute_morgan_fingerprints m'
                        (MorganFingerprintTransformer.length self)
                        (MorganFingerprintTransformer.radius self) = Ok row) pre ->
            compute_morgan_fingerprints m
              (MorganFingerprintTransformer.length self)
              (MorganFingerprintTransformer.radius self) = Raise e ->
            MorganFingerprintTransformer.transform self X = Raise e).
  { intros pre m post e -> Hpre Hm. unfold MorganFingerprintTransformer.transform.
    rewrite (comprehension_first_raise _ pre m post e Hpre Hm). reflexivity. }
  split; [|split; [|split]].
  - intros ->. reflexivity.
  - exact Hfirst.
  - intros Hvalid Hbad.
    assert (Hsplit : exists pre m post,
               X = pre ++ m :: post
               /\ Forall (fun m' => is_Some (MolFromSmiles m')) pre
               /\ MolFromSmiles m = None).
    { clear -Hbad. induction X as [|m X IH]; [inversion Hbad|].
      destruct (MolFromSmiles m) as [mol|] eqn:Hm.
      - destruct IH as (pre & m' & post & -> & Hpre & Hm').
        { inversion Hbad as [? ? Hhead|? ? Htail]; subst; [congruence | assumption]. }
        exists (m :: pre), m', post. split; [reflexivity|].
        split; [constructor; eauto | assumption].
      - exists [], m, X. split; [reflexivity|]. split; [constructor | assumption]. }
    destruct Hsplit as (pre & m & post & HX & Hpre & Hm).
    apply (Hfirst pre m post ArgumentError HX).
    + eapply Forall_impl; [exact Hpre|]. intros m' [mol Hmol].
      eexists. apply compute_morgan_fingerprints_parsed; [exact Hmol | exact Hvalid].
    + apply compute_morgan_fingerprints_unparsed, Hm.
  - intros Hzero m X' HX [mol Hmol].
    apply (Hfirst [] m X' ValueError HX); [constructor|].
    apply (compute_morgan_fingerprints_bad_length m mol _ _ Hmol), Hzero.
Qed.

End FingerprintProperties.

Lemma compute_morgan_fingerprints_returns_fingerprint_bits_witness :
  compute_morgan_fingerprints (rd := demo_rdkit) "C" 4 2
  = Ok (GetMorganFingerprintAsBitVect (RDKit := demo_rdkit) "C" 2 4)
  /\ compute_morgan_fingerprints (rd := demo_rdkit) "C" 0 2 = Raise ValueError
  /\ compute_morgan_fingerprints (rd := demo_rdkit) "C?" 0 2 = Raise ArgumentError.
Proof.
  assert (Hr : valid_radius 2) by (unfold valid_radius, INT_MAX; lia).
  destruct (compute_morgan_fingerprints_returns_fingerprint_bits
              (rd := demo_rdkit) "C" 4 2 Hr) as (Hiff & _).
  destruct (compute_morgan_fingerprints_returns_fingerprint_bits
              (rd := demo_rdkit) "C" 0 2 Hr) as (_ & _ & Hzero & _).
  destruct (compute_morgan_fingerprints_returns_fingerprint_bits
              (rd := demo_rdkit) "C?" 0 2 Hr) as (_ & Hnone & _).
  split; [|split].
  - apply Hiff. exists "C". split; [reflexivity|]. split; [|reflexivity].
    unfold valid_length, UINT_MAX. lia.
  - apply Hzero; [|reflexivity]. exists "C". reflexivity.
  - apply Hnone. reflexivity.
Defined.

Lemma transform_returns_one_row_per_string_witness :
  exists Xt,
    MorganFingerprintTransformer.transform (rd := demo_rdkit)
      (MorganFingerprintTransformer.init 4 4) ["C"; "CCC"; "C=O"] = Ok Xt
    /\ length Xt = 3
    /\ Forall (fun row => length row = 4) Xt.
Proof.
  destruct (transform_returns_one_row_per_string (rd := demo_rdkit)
              (spec := demo_rdkit_spec)
              (MorganFingerprintTransformer.init 4 4) ["C"; "CCC"; "C=O"])
    as [[_ Hexists] Hshape].
  { unfold valid_radius, INT_MAX. simpl. lia. }
  destruct Hexists as [Xt HXt].
  { split; [discriminate|]. split.
    - repeat constructor; vm_compute; eauto.
    - unfold valid_length, UINT_MAX. simpl. lia. }
  exists Xt. destruct (Hshape Xt HXt) as (Hlen & _ & Hrows).
  exact (conj HXt (conj Hlen Hrows)).
Defined.

Lemma transform_raises_witness :
  MorganFingerprintTransformer.transform (rd := demo_rdkit)
    (MorganFingerprintTransformer.init 4 4) [] = Raise ValueError
  /\ MorganFingerprintTransformer.transform (rd := demo_rdkit)
       (MorganFingerprintTransformer.init 4 4) ["C"; "C?"; "CCC"] = Raise ArgumentError
  /\ MorganFingerprintTransformer.transform (rd := demo_rdkit)
       (MorganFingerprintTransformer.init 0 4) ["C"; "C?"] = Raise ValueError.
Proof.
  assert (Hr : valid_radius 4) by (unfold valid_radius, INT_MAX; lia).
  destruct (transform_raises (rd := demo_rdkit)
              (MorganFingerprintTransformer.init 4 4) [] Hr) as (Hempty & _).
  destruct (transform_raises (rd := demo_rdkit)
              (MorganFingerprintTransformer.init 4 4) ["C"; "C?"; "CCC"] Hr)
    as (_ & _ & Hbad & _).
  destruct (transform_raises (rd := demo_rdkit)
              (MorganFingerprintTransformer.init 0 4) ["C"; "C?"] Hr)
    as (_ & _ & _ & Hzero).
  split; [apply Hempty; reflexivity|]. split.
  - apply Hbad.
    + unfold valid_length, UINT_MAX. simpl. lia.
    + apply Exists_cons_tl, Exists_cons_hd. reflexivity.
  - apply (Hzero eq_refl "C" ["C?"] eq_refl). exists "C". reflexivity.
Defined.

(* ================================================================== *)
(** * 13. Further properties of the sweep *)
(* ================================================================== *)

Section SweepProperties.
Context {rd : RDKit} {ml : MLLibs}.

(** X4.  On tables where every SMILES string parses, the test partition is
    not empty and the training partition has 3000 rows or more, and with
    libraries that do not raise on well-formed input, the sweep runs to
    completion and appends a record for every position of the grid. *)
Theorem sweep_returns_on_well_formed_tables
    {spec : RDKitSpec rd} {total : MLLibsTotal ml} (w : World) :
  sweep_ready (train_data w) (test_data w) ->
  (sweep w).1 = Ok tt
  /\ Forall2 (appended (train_data w) (test_data w)) sweep_grid (results (sweep w).2).
Proof.
  intros Hready. pose proof (sweep_completes w Hready) as Hok.
  split; [exact Hok|].
  destruct (sweep_spec w) as (k & _ & _ & Hall & Hout).
  rewrite Hok in Hout. subst k. rewrite take_ge in Hall by lia. exact Hall.
Qed.

(** X5.  When the sampling routine refuses to draw more rows than the
    table has, every record in [results] has a train_size that is at most
    the number of training rows; and with fewer than 3000 training rows the
    sweep cannot complete: it raises, leaving at most the 6 * 16 = 96
    records of the first length and the six smaller sizes. *)
Theorem sweep_sample_sizes_fit_training_partition (w : World) :
  (forall rs (df : DataFrame float) n subset rs',
     DataFrame_sample rs df n = (Ok subset, rs') -> n <= length df) ->
  (forall p d,
     results (sweep w).2 !! p = Some d ->
     exists s, int_field d "train_size" = Some s /\ s <= length (train_data w))
  /\ (length (train_data w) < 3000 ->
      exists e, (sweep w).1 = Raise e /\ length (results (sweep w).2) <= 96).
Proof.
  intros Hsample.
  assert (Hfit : forall p d l s i,
             results (sweep w).2 !! p = Some d ->
             sweep_grid !! p = Some (l, s, i) ->
             int_field d "train_size" = Some s /\ s <= length (train_data w)).
  { intros p d l s i Hd Hpos.
    destruct (sweep_results_lookup w p d Hd) as (l' & s' & i' & Hpos' & Happ).
    rewrite Hpos in Hpos'. inversion Hpos'; subst l' s' i'.
    destruct Happ as (rs & rs' & subset & m0 & fitted & y & r2 & mae
                      & Hdraw & _ & _ & _ & _ & _ & ->).
    split; [reflexivity|]. eapply Hsample, Hdraw. }
  split.
  - intros p d Hd.
    destruct (sweep_results_lookup w p d Hd) as (l & s & i & Hpos & _).
    exists s. eapply Hfit; eassumption.
  - intros Hrows. destruct (sweep_spec w) as (k & _ & _ & Hall & Hout).
    assert (Hk : k <= 96).
    { destruct (decide (k <= 96)) as [|Hgt]; [assumption|]. exfalso.
      assert (Hpos : take k sweep_grid !! 96 = Some (32, 3000, 0)).
      { rewrite lookup_take_lt by lia. reflexivity. }
      destruct (Forall2_lookup_l _ _ _ _ _ Hall Hpos) as (d & Hd & _).
      destruct (Hfit 96 d 32 3000 0 Hd eq_refl) as [_ Hle]. lia. }
    assert (Hlen : length (results (sweep w).2) <= 96).
    { apply Forall2_length in Hall. rewrite <- Hall, length_take. lia. }
    destruct (sweep w).1 as [[]|e] eqn:Hrun.
    + rewrite sweep_grid_length in Hout. lia.
    + exists e. split; [reflexivity | exact Hlen].
Qed.

(** A loop that returns has kept every invariant that each returning pass
    keeps. *)
Lemma for_each_post {A} (Inv : World -> Prop) (xs : list A) (body : A -> M unit) :
  (forall x w, Inv w -> (body x w).1 = Ok tt -> Inv (body x w).2) ->
  forall w, Inv w -> (for_each xs body w).1 = Ok tt -> Inv (for_each xs body w).2.
Proof.
  intros Hbody. induction xs as [|x xs IH]; intros w Hw Hok; simpl in *.
  - exact Hw.
  - unfold M_bind in *. specialize (Hbody x w Hw).
    destruct (body x w) as [[[]|e] w1]; simpl in *; [|discriminate].
    apply IH; [apply Hbody; reflexivity | exact Hok].
Qed.

(** A loop that returns ends in a state that its last pass established. *)
Lemma for_each_last {A} (Q : World -> Prop) (xs : list A) (x : A) (body : A -> M unit) :
  (forall w, (body x w).1 = Ok tt -> Q (body x w).2) ->
  forall w, (for_each (xs ++ [x]) body w).1 = Ok tt -> Q (for_each (xs ++ [x]) body w).2.
Proof.
  intros Hlast. induction xs as [|y xs IH]; intros w Hok; simpl in *.
  - unfold M_bind, M_ret in *. specialize (Hlast w).
    destruct (body x w) as [[[]|e] w1]; simpl in *; [|discriminate].
    apply Hlast. reflexivity.
  - unfold M_bind in *.
    destruct (body y w) as [[[]|e] w1]; simpl in *; [|discriminate].
    apply IH, Hok.
Qed.

(** The passes for one length: if they return, the pipeline has that
    length, and its radius is what it was. *)
Lemma length_pass_fingerprint (l : nat) (w : World) :
  let pass :=
    M_bind (model_set_params l) (fun _ =>
      for_each sweep_train_sizes (fun s =>
        for_each sweep_repetitions (fun i => iteration l s i))) in
  (pass w).1 = Ok tt ->
  fingerprint (model (pass w).2)
  = {| MorganFingerprintTransformer.length := l;
       MorganFingerprintTransformer.radius :=
         MorganFingerprintTransformer.radius (fingerprint (model w)) |}.
Proof.
  intros pass. subst pass. unfold M_bind, model_set_params. cbv beta iota.
  set (fp := {| MorganFingerprintTransformer.length := l;
                MorganFingerprintTransformer.radius :=
                  MorganFingerprintTransformer.radius (fingerprint (model w)) |}).
  apply (for_each_post (fun w' => fingerprint (model w') = fp)); [|reflexivity].
  intros s w1 Hw1.
  apply (for_each_post (fun w' => fingerprint (model w') = fp)); [|exact Hw1].
  intros i w2 Hw2 Hok.
  destruct (iteration_cases l s i w2) as (_ & _ & Hout).
  rewrite Hok in Hout. destruct Hout as [Hfp _]. congruence.
Qed.

(** X6.  A sweep that runs to completion leaves the notebook's pipeline
    set to the last fingerprint length, 128, with the radius it had before
    the sweep. *)
Theorem sweep_leaves_last_length (w : World) :
  (sweep w).1 = Ok tt ->
  fingerprint (model (sweep w).2)
  = {| MorganFingerprintTransformer.length := 128;
       MorganFingerprintTransformer.radius :=
         MorganFingerprintTransformer.radius (fingerprint (model w)) |}.
Proof.
  rewrite sweep_unfold. intros Hok.
  set (body := fun l : nat =>
                 M_bind (model_set_params l) (fun _ =>
                   for_each sweep_train_sizes (fun s =>
                     for_each sweep_repetitions (fun i => iteration l s i)))) in *.
  set (w0 := {| results := []; model := model w; train_data := train_data w;
                test_data := test_data w; random_state := random_state w |}) in *.
  set (r0 := MorganFingerprintTransformer.radius (fingerprint (model w))).
  assert (Hradius :
            MorganFingerprintTransformer.radius
              (fingerprint (model (for_each sweep_lengths body w0).2)) = r0).
  { apply (for_each_post
             (fun w' => MorganFingerprintTransformer.radius (fingerprint (model w')) = r0));
      [|reflexivity|exact Hok].
    intros l w1 Hw1 Hpass. subst body. cbv beta in *.
    rewrite (length_pass_fingerprint l w1 Hpass). exact Hw1. }
  assert (Hlength :
            MorganFingerprintTransformer.length
              (fingerprint (model (for_each sweep_lengths body w0).2)) = 128).
  { change sweep_lengths with ([32; 64] ++ [128]) in *.
    apply (for_each_last
             (fun w' => MorganFingerprintTransformer.length (fingerprint (model w')) = 128));
      [|exact Hok].
    intros w1 Hpass. subst body. cbv beta in *.
    rewrite (length_pass_fingerprint 128 w1 Hpass). reflexivity. }
  destruct (fingerprint (model (for_each sweep_lengths body w0).2)) as [len rad].
  simpl in *. subst. reflexivity.
Qed.

Lemma omap_map {A B C} (f : A -> B) (g : B -> option C) (rows : list A) :
  omap g (map f rows) = omap (fun r => g (f r)) rows.
Proof.
  induction rows as [|r rows IH]; csimpl; [reflexivity|].
  rewrite IH. reflexivity.
Qed.

Lemma filter_map {A B} (f : A -> B) (P : B -> Prop) `{forall b, Decision (P b)}
    (rows : list A) :
  filter P (map f rows) = map f (filter (fun r => P (f r)) rows).
Proof.
  induction rows as [|r rows IH]; simpl; [reflexivity|].
  rewrite !filter_cons. destruct (decide (P (f r))); simpl; rewrite IH; reflexivity.
Qed.

(** Grouping mapped rows is grouping the rows by the mapped key. *)
Lemma groupby_key_map {A B} (f : A -> B) (key : B -> option nat) (rows : list A) :
  groupby_key key (map f rows)
  = map (fun g : nat * list A => (g.1, map f g.2))
        (groupby_key (fun r => key (f r)) rows).
Proof.
  unfold groupby_key. rewrite omap_map, map_map.
  apply map_ext. intros k. simpl. rewrite filter_map. reflexivity.
Qed.

(** The points of cell 67 depend on the integer fields only. *)
Lemma curve_points_ints (rs : list dict) :
  curve_points rs = points_of_ints (map record_ints rs).
Proof.
  unfold curve_points, curves, points_of_ints.
  rewrite (groupby_key_map record_ints
             (fun t : option nat * option nat * option nat => t.1.1) rs).
  rewrite !map_map. apply map_ext. intros [gid group]. simpl. f_equal.
  rewrite (groupby_key_map record_ints
             (fun t : option nat * option nat * option nat => t.1.2) group).
  rewrite !map_map. apply map_ext. intros [s g]. simpl. f_equal.
  rewrite map_map. reflexivity.
Qed.

Lemma appended_record_ints train test (ps : list (nat * nat * nat)) (rs : list dict) :
  Forall2 (appended train test) ps rs ->
  map record_ints rs
  = map (fun pos : nat * nat * nat => (Some pos.1.1, Some pos.1.2, Some pos.2)) ps.
Proof.
  induction 1 as [|[[l s] i] d ps rs Happ _ IH]; simpl; [reflexivity|].
  apply appended_record in Happ as (r2 & mae & ->). rewrite IH. reflexivity.
Qed.

(** X7.  Cell 67 on the records of a completed sweep: grouping by length
    gives the three curves for 32, 64 and 128 in this order; on each curve,
    grouping by train_size gives the seven points for 3, 10, 30, 100, 300,
    1000 and 3000 in this order; and every point is the mean over exactly
    the 16 records with iterations 0 to 15. *)
Theorem sweep_results_group_into_curves (w : World) :
  (sweep w).1 = Ok tt ->
  curve_points (results (sweep w).2)
  = map (fun l => (l, map (fun s => (s, map Some sweep_repetitions)) sweep_train_sizes))
        sweep_lengths.
Proof.
  intros Hok. destruct (sweep_spec w) as (k & _ & _ & Hall & Hout).
  rewrite Hok in Hout. subst k. rewrite take_ge in Hall by lia.
  rewrite curve_points_ints, (appended_record_ints _ _ _ _ Hall).
  vm_compute. reflexivity.
Qed.

End SweepProperties.

Lemma demo_sample_fits :
  forall rs (df : DataFrame (@float demo_ml)) n subset rs',
    DataFrame_sample rs df n = (Ok subset, rs') -> n <= length df.
Proof.
  intros rs df n subset rs' H. simpl in *. unfold demo_sample in H.
  match type of H with
  | context [if ?b then _ else _] => destruct b eqn:Hn; [|discriminate]
  end.
  apply Nat.leb_le, Hn.
Qed.

Lemma sweep_returns_on_well_formed_tables_witness :
  (@sweep demo_rdkit demo_ml demo_sweep_world).1 = Ok tt
  /\ Forall2 (appended (rd := demo_rdkit)
                       (train_data demo_sweep_world) (test_data demo_sweep_world))
             sweep_grid (results (@sweep demo_rdkit demo_ml demo_sweep_world).2).
Proof.
  apply (sweep_returns_on_well_formed_tables (rd := demo_rdkit) (ml := demo_ml)
           (spec := demo_rdkit_spec) (total := demo_ml_total) demo_sweep_world).
  exact demo_sweep_ready.
Defined.

Lemma sweep_sample_sizes_fit_training_partition_witness :
  exists e,
    (@sweep demo_rdkit demo_ml (demo_world_seeded 0)).1 = Raise e
    /\ length (results (@sweep demo_rdkit demo_ml (demo_world_seeded 0)).2) <= 96.
Proof.
  destruct (sweep_sample_sizes_fit_training_partition (rd := demo_rdkit) (ml := demo_ml)
              (demo_world_seeded 0) demo_sample_fits) as [_ Hsmall].
  apply Hsmall. change (length (demo_table 3) < 3000).
  unfold demo_table. rewrite length_map, length_seq. lia.
Defined.

Lemma sweep_leaves_last_length_witness :
  fingerprint (model (@sweep demo_rdkit demo_ml demo_sweep_world).2)
  = {| MorganFingerprintTransformer.length := 128;
       MorganFingerprintTransformer.radius := 4 |}.
Proof.
  exact (sweep_leaves_last_length (rd := demo_rdkit) (ml := demo_ml)
           demo_sweep_world demo_sweep_completes).
Defined.

Lemma sweep_results_group_into_curves_witness :
  curve_points (results (@sweep demo_rdkit demo_ml demo_sweep_world).2)
  = map (fun l => (l, map (fun s => (s, map Some sweep_repetitions)) sweep_train_sizes))
        sweep_lengths.
Proof.
  exact (sweep_results_group_into_curves (rd := demo_rdkit) (ml := demo_ml)
           demo_sweep_world demo_sweep_completes).
Defined.

Section SweepRandomness.
Context {rd : RDKit} {ml : MLLibs}.

(** X13.  In an iteration of the sweep the random state is read by the
    sample draw and by nothing else: two iterations that start from states
    with the same model, tables and records and that draw the same sample
    end in the same way (both return, or both raise the same exception),
    with the same records and the same model, whatever their random
    states.  And an iteration that returns leaves the parameters of the
    transformer as they were, so that it turns a list of strings into the
    same matrix after the iteration as before. *)
Theorem iteration_random_only_through_sample (w1 w2 : World) (l s i : nat) :
  model w1 = model w2 ->
  train_data w1 = train_data w2 ->
  test_data w1 = test_data w2 ->
  results w1 = results w2 ->
  (DataFrame_sample (random_state w1) (train_data w1) s).1
  = (DataFrame_sample (random_state w2) (train_data w2) s).1 ->
  ((iteration l s i w1).1 = (iteration l s i w2).1
   /\ results (iteration l s i w1).2 = results (iteration l s i w2).2
   /\ model (iteration l s i w1).2 = model (iteration l s i w2).2)
  /\ ((iteration l s i w1).1 = Ok tt ->
      forall X : list string,
        MorganFingerprintTransformer.transform
          (fingerprint (model (iteration l s i w1).2)) X
        = MorganFingerprintTransformer.transform (fingerprint (model w1)) X).
Proof.
  intros Hmodel Htrain Htest Hresults Hsample. split.
  - unfold iteration, M_bind, train_data_sample, model_fit, model_predict,
      M_read, M_call, results_append.
    destruct (DataFrame_sample (random_state w1) (train_data w1) s) as [r1 rs1].
    destruct (DataFrame_sample (random_state w2) (train_data w2) s) as [r2 rs2].
    simpl in Hsample. subst r2.
    destruct r1 as [subset|e]; simpl; [|auto].
    rewrite <- Hmodel.
    destruct (Pipeline_fit (model w1) (col_smiles_0 subset) (col_bandgap subset))
      as [fitted|e]; simpl; [|auto].
    rewrite <- Htest.
    destruct (Pipeline_predict fitted (col_smiles_0 (test_data w1)))
      as [y_pred|e]; simpl; [|auto].
    destruct (r2_score (col_bandgap (test_data w1)) y_pred) as [r2|e]; simpl; [|auto].
    destruct (mean_absolute_error (col_bandgap (test_data w1)) y_pred)
      as [mae|e]; simpl; [|auto].
    rewrite Hresults. auto.
  - intros Hok X.
    destruct (iteration_cases l s i w1) as (_ & _ & Hout).
    rewrite Hok in Hout. destruct Hout as [Hfp _]. rewrite Hfp. reflexivity.
Qed.

End SweepRandomness.

Lemma iteration_random_only_through_sample_witness :
  (@iteration demo_rdkit demo_ml 256 3 0 (demo_world_seeded 0)).1
  = (@iteration demo_rdkit demo_ml 256 3 0 (demo_world_seeded 3)).1
  /\ results (@iteration demo_rdkit demo_ml 256 3 0 (demo_world_seeded 0)).2
     = results (@iteration demo_rdkit demo_ml 256 3 0 (demo_world_seeded 3)).2.
Proof.
  destruct (iteration_random_only_through_sample (rd := demo_rdkit) (ml := demo_ml)
              (demo_world_seeded 0) (demo_world_seeded 3) 256 3 0)
    as ((Hrun & Hrecords & _) & _).
  - reflexivity.
  - reflexivity.
  - reflexivity.
  - reflexivity.
  - vm_compute. reflexivity.
  - exact (conj Hrun Hrecords).
Defined.

(* ================================================================== *)
(** * 14. Further properties of feature conditioning *)
(* ================================================================== *)

Lemma to_numeric_coerce_rows (s : Series) :
  length (col_values (to_numeric_coerce s)) = length (col_values s).
Proof.
  unfold to_numeric_coerce. destruct (col_dtype s); try reflexivity.
  simpl. apply length_map.
Qed.

Lemma columns_to_numeric_coerce (desc : Frame) :
  columns (map to_numeric_coerce desc) = columns desc.
Proof.
  unfold columns. rewrite map_map. apply map_ext. apply to_numeric_coerce_name.
Qed.

(** A column without a missing value has no missing entry. *)
Lemma missing_values_false (c : Series) (v : cell) :
  missing_values c = false -> v ∈ col_values c -> isnull v = false.
Proof.
  unfold missing_values. intros Hmiss Hv.
  destruct (isnull v) eqn:E; [|reflexivity].
  assert (existsb isnull (col_values c) = true).
  { apply existsb_exists. exists v. split; [apply list_elem_of_In, Hv | exact E]. }
  congruence.
Qed.

(** What [check_array] does with a table whose entries are numbers or
    infinities: it accepts the table when no entry is infinite, and the
    table is then a real matrix; it raises [ValueError] when an entry is
    infinite. *)
Lemma check_array_cases (desc : Frame) :
  Forall (fun c => forallb is_number_or_inf (col_values c) = true) desc ->
  (Forall (fun c => existsb is_inf (col_values c) = false) desc ->
   check_array desc = Ok desc
   /\ exists X, to_matrix desc = Some X /\ length X = length desc)
  /\ (Exists (fun c => existsb is_inf (col_values c) = true) desc ->
      check_array desc = Raise ValueError).
Proof.
  intros Hnum. unfold check_array. split.
  - intros Hfin. split.
    + replace (existsb (fun s => existsb is_inf (col_values s)) desc) with false;
        [reflexivity|].
      symmetry. apply not_true_is_false. intros Hex.
      apply existsb_exists in Hex as (c & Hc & Hinf).
      rewrite Forall_forall in Hfin.
      specialize (Hfin c (proj2 (list_elem_of_In _ _) Hc)). simpl in Hfin. congruence.
    + assert (Hsome : is_Some (to_matrix desc)).
      { unfold to_matrix.
        apply mapM_is_Some_2. apply Forall_forall. intros c Hc. simpl.
        apply mapM_is_Some_2. apply Forall_forall. intros v Hv. simpl.
        rewrite Forall_forall in Hnum, Hfin.
        specialize (Hnum c Hc). specialize (Hfin c Hc).
        rewrite forallb_forall in Hnum.
        specialize (Hnum v (proj1 (list_elem_of_In _ _) Hv)).
        assert (Hv' : is_inf v = false).
        { destruct (is_inf v) eqn:E; [|reflexivity].
          assert (existsb is_inf (col_values c) = true).
          { apply existsb_exists. exists v.
            split; [apply list_elem_of_In, Hv | exact E]. }
          congruence. }
        destruct v; simpl in *; try discriminate; eauto. }
      destruct Hsome as [X HX]. exists X. split; [exact HX|].
      symmetry. eapply length_mapM, HX.
  - intros Hinf.
    replace (existsb (fun s => existsb is_inf (col_values s)) desc) with true;
      [reflexivity|].
    symmetry. apply existsb_exists.
    apply Exists_exists in Hinf as (c & Hc & Hcinf).
    exists c. split; [apply list_elem_of_In, Hc | exact Hcinf].
Qed.

Section ConditioningProperties.
Context {pd : Pandas}.

(** Every entry that [condition] keeps is a number or an infinity, when
    the raw columns hold entries of their dtypes. *)
Lemma condition_entries (desc cond : Frame) :
  Forall (fun s => well_typed s = true) desc ->
  condition desc = Ok cond ->
  Forall (fun c => forallb is_number_or_inf (col_values c) = true) cond.
Proof.
  intros Hwt Hcond. apply Forall_forall. intros c Hc.
  destruct (condition_kept desc cond c Hcond Hc)
    as (zero & s & _ & Hs & _ & Heq & Hmiss).
  rewrite Forall_forall in Hwt. specialize (Hwt s Hs).
  apply forallb_forall. intros v Hv. apply list_elem_of_In in Hv.
  pose proof (missing_values_false c v Hmiss Hv) as Hnull.
  subst c. unfold to_numeric_coerce in Hv.
  unfold well_typed in Hwt. rewrite forallb_forall in Hwt.
  destruct (col_dtype s) eqn:Hdt; simpl in Hv.
  - specialize (Hwt v (proj1 (list_elem_of_In _ _) Hv)).
    destruct v; simpl in *; try discriminate; reflexivity.
  - specialize (Hwt v (proj1 (list_elem_of_In _ _) Hv)).
    destruct v; simpl in *; try discriminate; reflexivity.
  - specialize (Hwt v (proj1 (list_elem_of_In _ _) Hv)).
    destruct v; simpl in *; try discriminate; reflexivity.
  - apply list_elem_of_fmap in Hv as (v0 & -> & _).
    destruct (coerce_cell_cases v0) as [Hnan|Hok]; [|exact Hok].
    rewrite Hnan in Hnull. discriminate.
Qed.


(** X9.  Conditioning only drops columns.  The labels of the conditioned
    table are a subsequence of the raw labels, in the same order; every
    kept column has as many rows as before; and a kept column whose dtype is
    not object is the raw column itself, with every value unchanged. *)
Theorem condition_only_drops_columns (desc cond : Frame) :
  condition desc = Ok cond ->
  sublist (columns cond) (columns desc)
  /\ Forall (fun c =>
               exists s, s ∈ desc
                         /\ col_name c = col_name s
                         /\ length (col_values c) = length (col_values s)
                         /\ (col_dtype s <> object_ -> c = s))
            cond.
Proof.
  intros Hcond. split.
  - unfold condition in Hcond.
    apply result_bind_Ok in Hcond as (zero & _ & Hcond).
    inversion Hcond; subst cond; clear Hcond.
    transitivity (columns (map to_numeric_coerce (drop_columns zero desc))).
    + unfold columns, drop_missing. apply fmap_sublist, sublist_filter.
    + rewrite columns_to_numeric_coerce.
      unfold columns, drop_columns. apply fmap_sublist, sublist_filter.
  - apply Forall_forall. intros c Hc.
    destruct (condition_kept desc cond c Hcond Hc) as (zero & s & _ & Hs & _ & -> & _).
    exists s. split; [exact Hs|].
    split; [apply to_numeric_coerce_name|].
    split; [apply to_numeric_coerce_rows|].
    intros Hdt. unfold to_numeric_coerce. destruct (col_dtype s); congruence.
Qed.

(** X14.  Which object columns survive.  With distinct labels, an object
    column of the raw table is kept by the conditioning exactly when
    [pd.to_numeric] can read every entry of it, that is when no entry is
    coerced to nan; the kept column then holds the numbers read, numeric
    strings included, in place of the objects. *)
Theorem condition_object_column (desc cond : Frame) (s : Series) :
  NoDup (columns desc) ->
  condition desc = Ok cond ->
  s ∈ desc ->
  col_dtype s = object_ ->
  (col_name s ∈ columns cond
   <-> Forall (fun v => coerce_cell v <> NaN) (col_values s))
  /\ (col_name s ∈ columns cond ->
      {| col_name := col_name s; col_dtype := float64;
         col_values := map coerce_cell (col_values s) |} ∈ cond).
Proof.
  intros Hnd Hcond Hs Hdt.
  assert (Hcoerce : to_numeric_coerce s
                    = {| col_name := col_name s; col_dtype := float64;
                         col_values := map coerce_cell (col_values s) |}).
  { unfold to_numeric_coerce. rewrite Hdt. reflexivity. }
  assert (Hkept : col_name s ∈ columns cond ->
                  to_numeric_coerce s ∈ cond
                  /\ missing_values (to_numeric_coerce s) = false).
  { intros Hin. unfold columns in Hin.
    apply list_elem_of_fmap in Hin as (c & Hname & Hc).
    destruct (condition_kept desc cond c Hcond Hc)
      as (zero & s' & _ & Hs' & _ & -> & Hmiss).
    rewrite to_numeric_coerce_name in Hname.
    assert (s = s') by (eapply NoDup_columns_inj; eassumption). subst s'.
    split; assumption. }
  split; [split|].
  - intros Hin. destruct (Hkept Hin) as [_ Hmiss].
    apply Forall_forall. intros v Hv Hnan.
    assert (Hv' : coerce_cell v ∈ col_values (to_numeric_coerce s)).
    { rewrite Hcoerce. simpl. apply list_elem_of_fmap_2, Hv. }
    pose proof (missing_values_false _ _ Hmiss Hv') as Hnull.
    rewrite Hnan in Hnull. discriminate.
  - intros Hall.
    destruct (zero_std_cols desc) as [zero|e] eqn:Hzero.
    2:{ unfold condition in Hcond. rewrite Hzero in Hcond. discriminate. }
    assert (Hin : to_numeric_coerce s ∈ cond).
    { apply (condition_keeps desc cond zero s Hcond Hzero Hs).
      - intros Hz.
        destruct (zero_std_cols_inv desc zero _ Hzero Hz) as (s' & Hs' & Hname & Hdt' & _).
        assert (s' = s) by (eapply NoDup_columns_inj; eassumption). subst s'.
        rewrite Hdt in Hdt'. discriminate.
      - rewrite Hcoerce. unfold missing_values. simpl.
        apply not_true_is_false. intros Hex.
        apply existsb_exists in Hex as (v' & Hv' & Hnull).
        apply in_map_iff in Hv' as (v & <- & Hv).
        rewrite Forall_forall in Hall.
        specialize (Hall v (proj2 (list_elem_of_In _ _) Hv)).
        destruct (coerce_cell_cases v) as [Hnan|Hok]; [contradiction|].
        destruct (coerce_cell v); simpl in *; try discriminate; congruence. }
    unfold columns. apply list_elem_of_fmap. exists (to_numeric_coerce s).
    split; [symmetry; apply to_numeric_coerce_name | exact Hin].
  - intros Hin. rewrite <- Hcoerce. apply (Hkept Hin).
Qed.

End ConditioningProperties.

(** What [astype('float')] makes of an entry: nan, or a number or an
    infinity; an entry that is a number or an infinity already is
    converted to one. *)
Lemma astype_float_cell_cases (c c' : cell) :
  astype_float_cell c = Ok c' -> c' = NaN \/ is_number_or_inf c' = true.
Proof.
  destruct c as [q| |n|b| |t [[q| |n]|e]]; simpl; intros H; inversion H; auto.
Qed.

Lemma astype_float_cell_number (c : cell) :
  is_number_or_inf c = true ->
  exists c', astype_float_cell c = Ok c' /\ isnull c' = false.
Proof. destruct c; simpl; try discriminate; eauto. Qed.

Lemma astype_float_columns (desc desc1 : Frame) :
  astype_float desc = Ok desc1 ->
  Forall2 (fun s s1 =>
             col_name s1 = col_name s
             /\ Forall2 (fun v v1 => astype_float_cell v = Ok v1)
                        (col_values s) (col_values s1))
          desc desc1.
Proof.
  unfold astype_float. intros H. apply comprehension_Ok_inv in H.
  eapply Forall2_impl; [exact H|]. intros s s1 Hs. simpl in Hs.
  apply result_bind_Ok in Hs as (vs & Hvs & Hs). inversion Hs; subst s1. simpl.
  split; [reflexivity|]. apply comprehension_Ok_inv, Hvs.
Qed.


Lemma demo_desc_well_typed : Forall (fun s => well_typed s = true) demo_desc.
Proof. repeat constructor. Qed.

Lemma demo_desc_inf_well_typed : Forall (fun s => well_typed s = true) demo_desc_inf.
Proof. repeat constructor. Qed.

(** In [demo_desc_inf] the column with the infinite entry and the column
    of numeric strings are both kept; the strings are read as their
    numbers. *)
Lemma demo_desc_inf_condition :
  condition (pd := float64_pandas) demo_desc_inf
  = Ok [demo_col_a; demo_col_i;
        {| col_name := "s"; col_dtype := float64;
           col_values := [Num 1; Num 2; Num 4] |}].
Proof. vm_compute. reflexivity. Qed.


Lemma demo_desc_inf_NoDup : NoDup (columns demo_desc_inf).
Proof. apply (bool_decide_unpack _). vm_compute. exact I. Qed.

Lemma condition_object_column_witness :
  (col_name demo_col_s
   ∈ columns [demo_col_a; demo_col_i;
              {| col_name := "s"; col_dtype := float64;
                 col_values := [Num 1; Num 2; Num 4] |}])
  /\ ~ Forall (fun v => coerce_cell v <> NaN) (col_values demo_col_e).
Proof.
  destruct (condition_object_column (pd := float64_pandas) demo_desc_inf _ demo_col_s
              demo_desc_inf_NoDup demo_desc_inf_condition) as [[_ Hkeep] _].
  { unfold demo_desc_inf. repeat constructor. }
  { reflexivity. }
  destruct (condition_object_column (pd := float64_pandas) demo_desc _ demo_col_e
              demo_desc_NoDup demo_desc_condition) as [[_ Hdrop] _].
  { unfold demo_desc. repeat constructor. }
  { reflexivity. }
  split.
  - apply Hkeep. repeat constructor; discriminate.
  - intros Hall. apply Hdrop in Hall.
    revert Hall. apply (bool_decide_unpack _). vm_compute. exact I.
Defined.

Lemma condition_only_drops_columns_witness :
  sublist (columns [demo_col_a; demo_col_b]) (columns demo_desc).
Proof.
  apply (condition_only_drops_columns (pd := float64_pandas)
           demo_desc [demo_col_a; demo_col_b]).
  exact demo_desc_condition.
Defined.


(* ================================================================== *)
(** * 15. The report of cell 21 *)
(* ================================================================== *)

Lemma getitem_NoDup (desc : Frame) (s : Series) :
  NoDup (columns desc) -> s ∈ desc -> getitem (col_name s) desc = Ok s.
Proof.
  unfold getitem. induction desc as [|a desc IH]; intros Hnd Hs.
  - apply elem_of_nil in Hs. contradiction.
  - simpl in Hnd. apply NoDup_cons in Hnd as [Ha Hnd].
    apply elem_of_cons in Hs as [->|Hs].
    + unfold Frame. rewrite filter_cons_True by reflexivity. reflexivity.
    + unfold Frame in *. rewrite filter_cons_False.
      * apply IH; assumption.
      * intros Heq. apply Ha. rewrite Heq. apply list_elem_of_fmap_2, Hs.
Qed.

Lemma percent_constant_bounds (zero : list string) (desc : Frame) :
  columns desc <> [] -> length zero <= length (columns desc) ->
  exists percent, percent_constant zero desc = Ok percent
                  /\ (0 <= percent)%Q /\ (percent <= 100)%Q.
Proof.
  intros Hne Hle. unfold percent_constant.
  destruct (columns desc) as [|c cs] eqn:Hcols; [contradiction|].
  eexists. split; [reflexivity|].
  set (a := inject_Z (Z.of_nat (length zero))).
  set (b := inject_Z (Z.of_nat (length (c :: cs)))).
  assert (Ha : (0 <= a)%Q).
  { unfold a, Qle. simpl. lia. }
  assert (Hb : (0 < b)%Q).
  { unfold b, Qlt. simpl. lia. }
  assert (Hab : (a <= b)%Q).
  { unfold a, b. rewrite <- Zle_Qle. lia. }
  assert (H0 : (0 <= a / b)%Q).
  { apply Qle_shift_div_l; [exact Hb|]. Lqa.lra. }
  assert (H1 : (a / b <= 1)%Q).
  { apply Qle_shift_div_r; [exact Hb|]. Lqa.lra. }
  split; Lqa.lra.
Qed.

Lemma describe_count_nonempty (vs : list cell) : 1 <= describe_count vs -> vs <> [].
Proof. intros H ->. unfold describe_count in H. simpl in H. lia. Qed.

Section ConstantsReport.
Context {pd : Pandas} {pdspec : PandasSpec pd}.

(** X11.  Cell 21 on a table with distinct labels.  It stops with
    ValueError when no column is int64 or float64, and with no other
    exception: the division and the lookups [desc[col].iloc[0]] cannot fail.
    Otherwise the percentage lies between 0 and 100, and one line is
    printed for each zero-deviation label, in order; the value on a line is
    the first entry of an int64 or float64 column that has two entries or
    more that are not missing and whose computed deviation compares equal
    to 0. *)
Theorem constants_report_lists_constant_columns (desc : Frame) :
  NoDup (columns desc) ->
  (select_dtypes_int64_float64 desc = [] /\ constants_report desc = Raise ValueError)
  \/ (exists zero percent lines,
        constants_report desc = Ok (zero, percent, lines)
        /\ zero_std_cols desc = Ok zero
        /\ (0 <= percent)%Q /\ (percent <= 100)%Q
        /\ map fst lines = zero
        /\ Forall (fun line =>
                     exists s, s ∈ desc
                               /\ col_name s = line.1
                               /\ is_int64_or_float64 (col_dtype s) = true
                               /\ head (col_values s) = Some line.2
                               /\ std_eq_0 s = true
                               /\ 2 <= describe_count (col_values s))
                  lines).
Proof.
  intros Hnd. unfold constants_report.
  destruct (zero_std_cols desc) as [zero|e] eqn:Hz.
  2:{ left. unfold zero_std_cols in Hz.
      destruct (select_dtypes_int64_float64 desc); [|discriminate].
      inversion Hz. split; reflexivity. }
  right.
  assert (Hdef : exists n numeric,
             select_dtypes_int64_float64 desc = n :: numeric
             /\ zero = columns (filter (fun s => Is_true (std_eq_0 s)) (n :: numeric))).
  { unfold zero_std_cols in Hz.
    destruct (select_dtypes_int64_float64 desc) as [|n numeric]; [discriminate|].
    inversion Hz. eauto. }
  destruct Hdef as (n & numeric & Hnum & Hdef).
  assert (Hcols : columns desc <> []).
  { intros Hnil. unfold columns in Hnil. apply map_eq_nil in Hnil.
    rewrite Hnil in Hnum. discriminate. }
  assert (Hlen : length zero <= length (columns desc)).
  { rewrite Hdef. unfold columns. rewrite !length_map, <- Hnum.
    etransitivity; [apply length_filter|].
    unfold select_dtypes_int64_float64. apply length_filter. }
  clear n numeric Hnum Hdef.
  destruct (percent_constant_bounds zero desc Hcols Hlen) as (percent & Hp & Hp0 & Hp1).
  cbn [result_bind]. rewrite Hp. cbn [result_bind].
  set (line := fun col : string =>
                 (do s <- getitem col desc; do c <- iloc_0 s; Ok (col, c))%result).
  set (P := fun l : string * cell =>
              exists s, s ∈ desc
                        /\ col_name s = l.1
                        /\ is_int64_or_float64 (col_dtype s) = true
                        /\ head (col_values s) = Some l.2
                        /\ std_eq_0 s = true
                        /\ 2 <= describe_count (col_values s)).
  assert (Hline : Forall (fun col => exists y, line col = Ok y /\ (y.1 = col /\ P y)) zero).
  { apply Forall_forall. intros col Hcol.
    destruct (zero_std_cols_inv desc zero col Hz Hcol) as (s & Hs & <- & Hdt & Hstd).
    pose proof (Series_std_eq_0_count (col_values s) Hstd) as Hcount.
    unfold line. rewrite (getitem_NoDup desc s Hnd Hs). simpl.
    unfold iloc_0.
    destruct (col_values s) as [|c cs] eqn:Hvals.
    { exfalso. apply (describe_count_nonempty []); [lia | reflexivity]. }
    simpl. eexists. split; [reflexivity|]. split; [reflexivity|].
    exists s. simpl. rewrite Hvals. repeat split; assumption. }
  assert (Hlines : exists lines, comprehension line zero = Ok lines
                                 /\ map fst lines = zero /\ Forall P lines).
  { clear -Hline. clearbody P line.
    induction Hline as [|col cols (y & Hy & Hfst & HP) _ IH].
    - exists []. repeat split. constructor.
    - destruct IH as (ys & Hys & Hmap & HPs).
      exists (y :: ys). simpl. rewrite Hy. simpl. rewrite Hys. simpl.
      split; [reflexivity|]. split; [congruence|]. constructor; assumption. }
  destruct Hlines as (lines & Hcomp & Hmap & HP).
  exists zero, percent.
  destruct (0 <? length zero)%nat eqn:Hpos.
  - exists lines. rewrite Hcomp. simpl.
    repeat split; assumption.
  - exists []. simpl. apply Nat.ltb_ge in Hpos.
    destruct zero; [|simpl in Hpos; lia].
    repeat split; try assumption. constructor.
Qed.

End ConstantsReport.

(** On [demo_desc] the report lists the column [c]; on
    [demo_desc_rounding] it lists the column [p], which is not constant,
    and prints its first entry. *)
Lemma constants_report_lists_constant_columns_witness :
  (exists zero percent lines,
     constants_report (pd := float64_pandas) demo_desc = Ok (zero, percent, lines)
     /\ (0 <= percent)%Q /\ (percent <= 100)%Q
     /\ map fst lines = zero
     /\ lines = [("c", Num 5)])
  /\ (exists percent,
        constants_report (pd := float64_pandas) demo_desc_rounding
        = Ok (["p"], percent, [("p", Num 9007199254740992)])).
Proof.
  split.
  - destruct (constants_report_lists_constant_columns (pd := float64_pandas)
                (pdspec := float64_pandas_spec) demo_desc demo_desc_NoDup)
      as [[Hnone _]|(zero & percent & lines & Hrep & _ & Hp0 & Hp1 & Hmap & _)].
    + discriminate Hnone.
    + exists zero, percent, lines.
      assert (Hl : lines = [("c", Num 5)]).
      { vm_compute in Hrep. inversion Hrep. reflexivity. }
      exact (conj Hrep (conj Hp0 (conj Hp1 (conj Hmap Hl)))).
  - eexists. vm_compute. reflexivity.
Defined.
